(** * Batch fetching of relationships: a model of [batch_fetch.py]

    The development embeds [sqlalchemy_utils/functions/batch_fetch.py]:
    the classes [Path], [Fetcher] (with its three subclasses),
    [CompositeFetcher], [FetchingCoordinator] and the entry point
    [batch_fetch].  Python objects live in a heap indexed by
    locations; the ORM session is a read-only database of tables
    together with that heap; exceptions are explicit results, and a
    computation that raises keeps the state it had reached.

    What the model takes from the ORM, which is not part of the
    source:
    - column values are integers or NULL, and the value of a column
      attribute of an instance is the value of the column in its row
      (the session is flushed), under the name of the column;
    - a query returns the rows of a table in the order of the table;
      a join returns, for every row of the association table in the
      order of that table, the related rows its join condition pairs
      with it (SQL leaves the order open: the order of an association
      table is the order in which the database visits it);
    - iterating a query that returns a mapped entity beside a column
      yields equal (entity, column) rows once, at their first
      occurrence, as [loading.instances] of the ORM filters them
      through [util.unique_list];
    - in a filter a NULL column is a member of no list;
    - reading an unloaded relationship stops the model ([NotLoaded])
      where Python would run a lazy loader. *)

From Stdlib Require Import ZArith Ascii String List Lia.
From stdpp Require Import base option list gmap strings.

Local Open Scope string_scope.
Local Open Scope list_scope.

(** ** Exceptions and results *)

(** The source raises plain [Exception] objects told apart by their
    message; the first three constructors stand for those messages:
    - [NotARelationshipError]: 'Given attribute is not a relationship property.'
    - [UnknownPathSpecError]: 'Unknown path type.'
    - [IncompatibleFetcherError]: 'Each relationship property must have the
      same class when using CompositeFetcher.'
    The others are the built-in exceptions of the interpreter and of the
    ORM.  [NotLoaded] marks a read of an attribute that is not in the
    loaded state of an instance: Python would raise [AttributeError] for an
    unmapped name and would run the lazy loader of the ORM for an unloaded
    relationship; the loader is outside this model. *)
Inductive exn :=
| NotARelationshipError
| UnknownPathSpecError
| IncompatibleFetcherError
| IndexError
| TypeError
| AttributeError
| KeyError
| UnmappedInstanceError
| NotImplementedError
| NotLoaded.

Inductive result (A : Type) :=
| Ok (a : A)
| Raise (e : exn).
Arguments Ok {A} a.
Arguments Raise {A} e.

#[global] Instance exn_eq_dec : EqDecision exn.
Proof. solve_decision. Defined.

#[global] Instance result_ret : MRet result := λ A a, Ok a.
#[global] Instance result_bind : MBind result :=
  λ A B f m, match m with Ok a => f a | Raise e => Raise e end.

(** ** Python values *)

Definition loc := positive.

(** A reference to a Python object: [None] or an instance in the heap. *)
Inductive pyref :=
| PyNone
| PyObj (l : loc).

#[global] Instance pyref_eq_dec : EqDecision pyref.
Proof. solve_decision. Defined.

(** The value of a loaded relationship attribute: a scalar (to-one)
    reference, possibly [None], or a Python list. *)
Inductive value :=
| VOne (r : pyref)
| VList (rs : list pyref).

#[global] Instance value_eq_dec : EqDecision value.
Proof. solve_decision. Defined.

(** Column values are SQL integers or NULL (Python [None]). *)
Abbreviation colval := (option Z).
Abbreviation columns := (gmap string (option Z)).

(** A mapped instance: its class, its column attributes and the
    relationship attributes that are loaded.  A relationship that is
    absent from [obj_rels] is unloaded. *)
Record obj := mkObj {
  obj_class : string;
  obj_cols : columns;
  obj_rels : gmap string value
}.

Abbreviation heap := (gmap loc obj).

(** What [getattr(instance, name)] can return. *)
Inductive pyval :=
| PVCol (c : colval)
| PVRel (v : value).

(** ** Mapper metadata *)

(** A [Column]: its name and, for each of its foreign keys, the table
    of the referenced column ([fk.column.table]).  [fk.parent] is the
    column itself. *)
Record column := mkColumn {
  col_name : string;
  col_foreign_keys : list string
}.

Inductive direction := ONETOMANY | MANYTOONE | MANYTOMANY.

#[global] Instance direction_eq_dec : EqDecision direction.
Proof. solve_decision. Defined.

(** A [RelationshipProperty].  The sets [local_columns] and
    [remote_side] are given in their iteration order.  [secondaryjoin]
    is an equality between a column of the related class and a column
    of the association table. *)
Record relationship := mkRelationship {
  rel_key : string;
  rel_class : string;
  rel_secondary : option string;
  rel_secondaryjoin : string * string;
  rel_direction : direction;
  rel_local_columns : list column;
  rel_remote_side : list column;
  rel_back_populates : option string
}.

Inductive property :=
| ColumnProperty (c : column)
| RelationshipProperty (r : relationship).

Record mapped_class := mkClass {
  cls_table : string;
  cls_pk : string;
  cls_attrs : gmap string property
}.

(** The session: the mapped classes, the rows of every mapped table (as
    the instances the identity map holds for them, in result order) and
    the rows of the association tables, in the order in which a join
    visits them. *)
Record database := mkDatabase {
  db_classes : gmap string mapped_class;
  db_rows : gmap string (list loc);
  db_secondary : gmap string (list columns)
}.

(** The mutable state of a call: the heap and the number of queries
    that were executed. *)
Record state := mkState {
  st_heap : gmap loc obj;
  st_queries : nat
}.

Definition M (A : Type) : Type := state → result A * state.

#[global] Instance M_ret : MRet M := λ A a s, (Ok a, s).
#[global] Instance M_bind : MBind M :=
  λ A B f m s, match m s with
               | (Ok a, s') => f a s'
               | (Raise e, s') => (Raise e, s')
               end.

Definition liftR {A} (r : result A) : M A := λ s, (r, s).
Definition get_heap : M (gmap loc obj) := λ s, (Ok (st_heap s), s).

(** ** Strings: [str.split('.')] and ['.'.join] *)

(** [split_dot s] is [s.split('.')] as its first element and the rest;
    the result of [split] is never empty. *)
Fixpoint split_dot (s : string) : string * list string :=
  match s with
  | EmptyString => (EmptyString, [])
  | String c s' =>
      let '(hd, tl) := split_dot s' in
      if Ascii.eqb c "."%char then (EmptyString, hd :: tl)
      else (String c hd, tl)
  end.

Fixpoint join_dot (l : list string) : string :=
  match l with
  | [] => EmptyString
  | [x] => x
  | x :: tl => x +:+ ("." +:+ join_dot tl)
  end.

Fixpoint no_dot (s : string) : bool :=
  match s with
  | EmptyString => true
  | String c s' => negb (Ascii.eqb c "."%char) && no_dot s'
  end.

(** ** Reading objects *)

Definition index0 {A} (l : list A) : result A :=
  match l with
  | x :: _ => Ok x
  | [] => Raise IndexError
  end.

(** [entity.__class__], as the name of the class. *)
Definition class_of (h : heap) (r : pyref) : result string :=
  match r with
  | PyNone => Ok "NoneType"
  | PyObj l =>
      match h !! l with
      | Some o => Ok (obj_class o)
      | None => Raise AttributeError
      end
  end.

(** [getattr(cls, name).property] for a class given by name. *)
Definition class_getattr (db : database) (cls name : string) : result property :=
  match db_classes db !! cls with
  | Some mc =>
      match cls_attrs mc !! name with
      | Some p => Ok p
      | None => Raise AttributeError
      end
  | None => Raise AttributeError
  end.

(** [getattr(entity, name)] on an instance. *)
Definition getattr (h : heap) (r : pyref) (name : string) : result pyval :=
  match r with
  | PyNone => Raise AttributeError
  | PyObj l =>
      match h !! l with
      | None => Raise AttributeError
      | Some o =>
          match obj_cols o !! name with
          | Some c => Ok (PVCol c)
          | None =>
              match obj_rels o !! name with
              | Some v => Ok (PVRel v)
              | None => Raise NotLoaded
              end
          end
      end
  end.

(** [getattr(entity, name)] where [name] is the name of a column (or
    the [None] a many-to-many fetcher can compute for it). *)
Definition getattr_col (h : heap) (r : pyref) (name : option string) : result colval :=
  match name with
  | None => Raise TypeError
  | Some n =>
      match r with
      | PyNone => Raise AttributeError
      | PyObj l =>
          match h !! l with
          | None => Raise AttributeError
          | Some o =>
              match obj_cols o !! n with
              | Some c => Ok c
              | None => Raise AttributeError
              end
          end
      end
  end.

(** Sequencing over lists, with the first exception stopping the loop. *)
Fixpoint mapR {A B} (g : A → result B) (l : list A) : result (list B) :=
  match l with
  | [] => Ok []
  | x :: xs => y ← g x; ys ← mapR g xs; Ok (y :: ys)
  end.

Fixpoint foldR {A B} (g : B → A → result B) (b : B) (l : list A) : result B :=
  match l with
  | [] => Ok b
  | x :: xs => b' ← g b x; foldR g b' xs
  end.

Fixpoint forM {A} (g : A → M unit) (l : list A) : M unit :=
  match l with
  | [] => mret tt
  | x :: xs => _ ← g x; forM g xs
  end.

(** ** [class Path] *)

Record path := mkPath {
  path_entities : list pyref;
  path_property : relationship;
  path_populate_backrefs : bool
}.

Inductive fetcher_kind :=
| ManyToManyFetcher
| ManyToOneFetcher
| OneToManyFetcher.

#[global] Instance fetcher_kind_eq_dec : EqDecision fetcher_kind.
Proof. solve_decision. Defined.

(** [Path.fetcher_class] *)
Definition fetcher_class (p : path) : fetcher_kind :=
  match rel_secondary (path_property p) with
  | Some _ => ManyToManyFetcher
  | None =>
      match rel_direction (path_property p) with
      | MANYTOONE => ManyToOneFetcher
      | _ => OneToManyFetcher
      end
  end.

(** [Path.__init__]; the fetcher it stores is [path_fetcher] below. *)
Definition Path_init (entities : list pyref) (prop : property)
    (populate_backrefs : bool) : result path :=
  match prop with
  | RelationshipProperty r => Ok (mkPath entities r populate_backrefs)
  | ColumnProperty _ => Raise NotARelationshipError
  end.

(** [Path.session]: [object_session(self.entities[0])]. *)
Definition path_session (h : heap) (p : path) : result unit :=
  e ← index0 (path_entities p);
  match e with
  | PyNone => Raise UnmappedInstanceError
  | PyObj l => if h !! l is Some _ then Ok tt else Raise UnmappedInstanceError
  end.

(** [Path.parent_model] *)
Definition parent_model (h : heap) (p : path) : result string :=
  e ← index0 (path_entities p); class_of h e.

(** [Path.model] *)
Definition path_model (p : path) : string := rel_class (path_property p).

(** The path specifiers [batch_fetch] accepts: a string, an
    [InstrumentedAttribute] (given by its [property]), a [with_backrefs]
    marker, a [CompositePath], or any other object. *)
#[warnings="-register-all"]
Inductive path_spec :=
| PStr (s : string)
| PAttr (prop : property)
| with_backrefs (p : path_spec)
| CompositePath (paths : list path_spec)
| PObject.

(** The loop of [Path.parse] that collects
    [related_entities.extend(getattr(entity, attrs[0]))]. *)
Fixpoint related_entities_of (h : heap) (entities : list pyref) (a : string)
    : result (list pyref) :=
  match entities with
  | [] => Ok []
  | e :: es =>
      v ← getattr h e a;
      l ← match v with
          | PVRel (VList l) => Ok l
          | _ => Raise TypeError
          end;
      rest ← related_entities_of h es a;
      Ok (l ++ rest)
  end.

(** [Path.parse] on a string that [split] cut into [a :: tl].  The
    source joins [tl] again and splits it in the recursive call;
    [parse_dotted] below shows that this is the same recursion. *)
Fixpoint parse_attrs (db : database) (h : heap) (entities : list pyref)
    (a : string) (tl : list string) (populate_backrefs : bool) : result path :=
  match tl with
  | [] =>
      e ← index0 entities;
      cls ← class_of h e;
      attr ← class_getattr db cls a;
      Path_init entities attr populate_backrefs
  | b :: tl' =>
      related ← related_entities_of h entities a;
      parse_attrs db h related b tl' populate_backrefs
  end.

Definition parse (db : database) (h : heap) (entities : list pyref)
    (p : path_spec) (populate_backrefs : bool) : result path :=
  match p with
  | PStr s =>
      let '(a, tl) := split_dot s in
      parse_attrs db h entities a tl populate_backrefs
  | PAttr attr => Path_init entities attr populate_backrefs
  | _ => Raise UnknownPathSpecError
  end.

(** ** Conditions and queries *)

(** SQL expressions the fetchers build: [column.in_(values)] and
    [sa.or_(...)]. *)
#[warnings="-register-all"]
Inductive condition :=
| In_ (col : string) (vals : list colval)
| Or_ (cs : list condition).

(** The rows a filter keeps are those on which the expression is true;
    a NULL column is a member of no list. *)
Fixpoint sat (cols : columns) (c : condition) : bool :=
  match c with
  | In_ col vals =>
      match cols !! col with
      | Some (Some z) => bool_decide (Some z ∈ vals)
      | _ => false
      end
  | Or_ cs => existsb (sat cols) cs
  end.

Definition col_of (cols : columns) (name : string) : colval :=
  default None (cols !! name).

Definition row_cols (h : heap) (l : loc) : columns :=
  match h !! l with
  | Some o => obj_cols o
  | None => ∅
  end.

Definition table (db : database) (model : string) : list loc :=
  default [] (db_rows db !! model).

Definition assoc_rows (db : database) (secondary : string) : list columns :=
  default [] (db_secondary db !! secondary).

(** A result row: an entity, or the pair of an entity and a column. *)
Inductive row :=
| RowEntity (r : pyref)
| RowPair (r : pyref) (parent_id : colval).

#[global] Instance row_eq_dec : EqDecision row.
Proof. solve_decision. Defined.

(** [util.unique_list] of the ORM: the elements of a list, each at its
    first occurrence. *)
Fixpoint unique_list {A} `{EqDecision A} (l : list A) : list A :=
  match l with
  | [] => []
  | x :: l' => x :: List.filter (λ y, bool_decide (y ≠ x)) (unique_list l')
  end.

(** A [Query] object: [query(model).filter(c)], or the join of [model]
    with an association table, filtered on a column of that table and
    returning that column beside the entity. *)
Inductive query :=
| QFilter (model : string) (c : condition)
| QJoin (model secondary : string) (on : string * string) (col : string)
    (vals : list colval).

Definition join_on (cols assoc : columns) (on : string * string) : bool :=
  match col_of cols on.1, col_of assoc on.2 with
  | Some x, Some y => bool_decide (x = y)
  | _, _ => false
  end.

(** The rows a query yields when it is iterated.  The rows of a join
    hold an entity and a column: the ORM yields equal ones once. *)
Definition run_query (db : database) (h : heap) (q : query) : list row :=
  match q with
  | QFilter model c =>
      map (λ l, RowEntity (PyObj l))
        (List.filter (λ l, sat (row_cols h l) c) (table db model))
  | QJoin model secondary on col vals =>
      unique_list
        (flat_map (λ a,
           if sat a (In_ col vals)
           then map (λ l, RowPair (PyObj l) (col_of a col))
                  (List.filter (λ l, join_on (row_cols h l) a on) (table db model))
           else [])
           (assoc_rows db secondary))
  end.

(** Iterating a [Query] executes it. *)
Definition iterate (db : database) (q : query) : M (list row) :=
  λ s, (Ok (run_query db (st_heap s) q),
        mkState (st_heap s) (S (st_queries s))).

(** [Query.get(ident)]: the instance of the class with that primary
    key, or [None]. *)
Definition query_get (db : database) (h : heap) (cls : string) (ident : colval)
    : result pyref :=
  match db_classes db !! cls with
  | None => Raise UnmappedInstanceError
  | Some mc =>
      match ident with
      | None => Ok PyNone
      | Some z =>
          Ok (match List.find (λ l, bool_decide (col_of (row_cols h l) (cls_pk mc) = Some z))
                      (table db cls) with
              | Some l => PyObj l
              | None => PyNone
              end)
      end
  end.

(** ** [class Fetcher] and its subclasses *)

(** A fetcher: its class, its path and [parent_dict].  The dictionary
    is a [defaultdict]; its default depends on the class. *)
Record fetcher := mkFetcher {
  f_kind : fetcher_kind;
  f_path : path;
  parent_dict : gmap colval value
}.

Definition path_fetcher (p : path) : fetcher :=
  mkFetcher (fetcher_class p) p ∅.

Definition prop (f : fetcher) : relationship := path_property (f_path f).

(** [defaultdict(list)], and [defaultdict(lambda: None)] for
    [ManyToOneFetcher]. *)
Definition dd_default (k : fetcher_kind) : value :=
  match k with
  | ManyToOneFetcher => VOne PyNone
  | _ => VList []
  end.

(** [self.parent_dict[k]] as a value.  (On a miss Python also stores
    the default under [k]; a later read of [k] returns the same
    value.) *)
Definition dd_get (f : fetcher) (k : colval) : value :=
  default (dd_default (f_kind f)) (parent_dict f !! k).

Definition set_parent_dict (f : fetcher) (d : gmap colval value) : fetcher :=
  mkFetcher (f_kind f) (f_path f) d.

(** [self.parent_dict[k].append(entity)] *)
Definition dd_append (f : fetcher) (k : colval) (entity : pyref) : result fetcher :=
  match dd_get f k with
  | VList l => Ok (set_parent_dict f (<[k := VList (l ++ [entity])]> (parent_dict f)))
  | VOne _ => Raise AttributeError
  end.

(** [Fetcher.local_values] *)
Definition local_values (h : heap) (f : fetcher) (entity : pyref) : result colval :=
  c ← index0 (rel_local_columns (prop f));
  getattr_col h entity (Some (col_name c)).

(** [Fetcher.local_values_list] *)
Definition local_values_list (h : heap) (f : fetcher) : result (list colval) :=
  mapR (local_values h f) (path_entities (f_path f)).

(** [self.path.parent_model.__table__] *)
Definition parent_table (db : database) (h : heap) (p : path) : result string :=
  cls ← parent_model h p;
  match db_classes db !! cls with
  | Some mc => Ok (cls_table mc)
  | None => Raise AttributeError
  end.

(** The two loops of [ManyToManyFetcher.remote_column_name]; the
    function returns [None] when they end without a match. *)
Fixpoint find_fk (tbl : result string) (name : string) (fks : list string)
    : result (option string) :=
  match fks with
  | [] => Ok None
  | t :: fks' =>
      pt ← tbl;
      if String.eqb t pt then Ok (Some name) else find_fk tbl name fks'
  end.

Fixpoint find_remote (tbl : result string) (cols : list column)
    : result (option string) :=
  match cols with
  | [] => Ok None
  | c :: cs =>
      r ← find_fk tbl (col_name c) (col_foreign_keys c);
      match r with
      | Some n => Ok (Some n)
      | None => find_remote tbl cs
      end
  end.

(** [remote_column_name] of [Fetcher], overridden by [ManyToManyFetcher]. *)
Definition remote_column_name (db : database) (h : heap) (f : fetcher)
    : result (option string) :=
  match f_kind f with
  | ManyToManyFetcher =>
      find_remote (parent_table db h (f_path f)) (rel_remote_side (prop f))
  | _ =>
      c ← index0 (rel_remote_side (prop f)); Ok (Some (col_name c))
  end.

(** [getattr(model, name)] as the column an [in_] can be built on. *)
Definition model_column (db : database) (model : string) (name : option string)
    : result string :=
  match name with
  | None => Raise TypeError
  | Some n =>
      p ← class_getattr db model n;
      match p with
      | ColumnProperty _ => Ok n
      | RelationshipProperty _ => Raise NotImplementedError
      end
  end.

(** [Fetcher.condition] *)
Definition condition_of (db : database) (h : heap) (f : fetcher) : result condition :=
  name ← remote_column_name db h f;
  col ← model_column db (path_model (f_path f)) name;
  vals ← local_values_list h f;
  Ok (In_ col vals).

(** [related_entities] of [Fetcher], overridden by [ManyToManyFetcher]:
    the [Query] object, not yet executed. *)
Definition related_entities (db : database) (h : heap) (f : fetcher) : result query :=
  match f_kind f with
  | ManyToManyFetcher =>
      _ ← path_session h (f_path f);
      match rel_secondary (prop f) with
      | None => Raise AttributeError
      | Some secondary =>
          name ← remote_column_name db h f;
          col ← match name with Some n => Ok n | None => Raise TypeError end;
          vals ← local_values_list h f;
          Ok (QJoin (path_model (f_path f)) secondary
                (rel_secondaryjoin (prop f)) col vals)
      end
  | _ =>
      _ ← path_session h (f_path f);
      c ← condition_of db h f;
      Ok (QFilter (path_model (f_path f)) c)
  end.

(** [append_entity] of [ManyToOneFetcher] and [OneToManyFetcher];
    [Fetcher] and [ManyToManyFetcher] define none. *)
Definition append_entity (db : database) (h : heap) (f : fetcher) (entity : pyref)
    : result fetcher :=
  match f_kind f with
  | ManyToManyFetcher => Raise AttributeError
  | ManyToOneFetcher =>
      name ← remote_column_name db h f;
      k ← getattr_col h entity name;
      Ok (set_parent_dict f (<[k := VOne entity]> (parent_dict f)))
  | OneToManyFetcher =>
      name ← remote_column_name db h f;
      k ← getattr_col h entity name;
      dd_append f k entity
  end.

(** The body of the loop of [fetch] on one result row. *)
Definition fetch_row (db : database) (h : heap) (f : fetcher) (r : row)
    : result fetcher :=
  match f_kind f, r with
  | ManyToManyFetcher, RowPair entity parent_id => dd_append f parent_id entity
  | ManyToManyFetcher, RowEntity _ => Raise TypeError
  | _, RowEntity entity => append_entity db h f entity
  | _, RowPair _ _ => Raise AttributeError
  end.

(** [fetch] of [Fetcher], overridden by [ManyToManyFetcher]. *)
Definition fetch (db : database) (f : fetcher) : M fetcher :=
  h ← get_heap;
  q ← liftR (related_entities db h f);
  rows ← iterate db q;
  liftR (foldR (fetch_row db h) f rows).

(** [set_committed_value(instance, key, value)] of the ORM: the
    attribute is written as loaded; the instance must be mapped and
    [key] must name a relationship of its class. *)
Definition has_relationship (db : database) (cls key : string) : bool :=
  match class_getattr db cls key with
  | Ok (RelationshipProperty _) => true
  | _ => false
  end.

Definition set_committed_value (db : database) (instance : pyref)
    (key : option string) (v : value) : M unit :=
  λ s,
    match instance with
    | PyNone => (Raise AttributeError, s)
    | PyObj l =>
        match st_heap s !! l with
        | None => (Raise AttributeError, s)
        | Some o =>
            match key with
            | None => (Raise KeyError, s)
            | Some k =>
                if has_relationship db (obj_class o) k
                then (Ok tt,
                      mkState (<[l := mkObj (obj_class o) (obj_cols o)
                                         (<[k := v]> (obj_rels o))]> (st_heap s))
                        (st_queries s))
                else (Raise KeyError, s)
            end
        end
    end.

(** A row of [related_entities] unpacked as [entity, parent_id]. *)
Definition unpack (r : row) : result (pyref * colval) :=
  match r with
  | RowPair entity parent_id => Ok (entity, parent_id)
  | RowEntity _ => Raise TypeError
  end.

Definition dict_get {V} (d : gmap colval V) (k : colval) : result V :=
  match d !! k with
  | Some v => Ok v
  | None => Raise KeyError
  end.

(** [Fetcher.populate_backrefs]: the query is iterated three times. *)
Definition backref_init (h : heap) (f : fetcher)
    (d : gmap colval (list pyref)) (r : row) : result (gmap colval (list pyref)) :=
  '(entity, parent_id) ← unpack r;
  k ← local_values h f entity;
  Ok (<[k := []]> d).

Definition backref_collect (db : database) (h : heap) (f : fetcher)
    (d : gmap colval (list pyref)) (r : row) : result (gmap colval (list pyref)) :=
  '(entity, parent_id) ← unpack r;
  k ← local_values h f entity;
  l ← dict_get d k;
  _ ← path_session h (f_path f);
  cls ← parent_model h (f_path f);
  parent ← query_get db h cls parent_id;
  Ok (<[k := l ++ [parent]]> d).

Definition backref_assign (db : database) (f : fetcher)
    (d : gmap colval (list pyref)) (r : row) : M unit :=
  '(entity, parent_id) ← liftR (unpack r);
  h ← get_heap;
  k ← liftR (local_values h f entity);
  l ← liftR (dict_get d k);
  set_committed_value db entity (rel_back_populates (prop f)) (VList l).

Definition populate_backrefs (db : database) (f : fetcher) (q : query) : M unit :=
  rows1 ← iterate db q;
  h1 ← get_heap;
  d0 ← liftR (foldR (backref_init h1 f) ∅ rows1);
  rows2 ← iterate db q;
  h2 ← get_heap;
  backref_dict ← liftR (foldR (backref_collect db h2 f) d0 rows2);
  rows3 ← iterate db q;
  forM (backref_assign db f backref_dict) rows3.

(** The body of the first loop of [Fetcher.populate]. *)
Definition populate_entity (db : database) (f : fetcher) (entity : pyref) : M unit :=
  h ← get_heap;
  k ← liftR (local_values h f entity);
  set_committed_value db entity (Some (rel_key (prop f))) (dd_get f k).

(** [Fetcher.populate] *)
Definition populate (db : database) (f : fetcher) : M unit :=
  _ ← forM (populate_entity db f) (path_entities (f_path f));
  if path_populate_backrefs (f_path f)
  then h ← get_heap;
       q ← liftR (related_entities db h f);
       populate_backrefs db f q
  else mret tt.

(** ** [class CompositeFetcher] *)

(** [CompositeFetcher.__init__] *)
Definition CompositeFetcher_init (fetchers : list fetcher) : result (list fetcher) :=
  match fetchers with
  | [] => Ok []
  | f0 :: _ =>
      if forallb (λ f, String.eqb (path_model (f_path f0)) (path_model (f_path f)))
           fetchers
      then Ok fetchers
      else Raise IncompatibleFetcherError
  end.

(** [CompositeFetcher.condition] *)
Definition composite_condition (db : database) (h : heap) (fetchers : list fetcher)
    : result condition :=
  cs ← mapR (condition_of db h) fetchers;
  Ok (Or_ cs).

(** [CompositeFetcher.related_entities] *)
Definition composite_related_entities (db : database) (h : heap)
    (fetchers : list fetcher) : result query :=
  f0 ← index0 fetchers;
  _ ← path_session h (f_path f0);
  c ← composite_condition db h fetchers;
  Ok (QFilter (path_model (f_path f0)) c).

(** The body of the inner loop of [CompositeFetcher.fetch]. *)
Definition composite_fetch_one (db : database) (h : heap) (entity : pyref)
    (f : fetcher) : result fetcher :=
  name ← remote_column_name db h f;
  v ← getattr_col h entity name;
  match v with
  | None => Ok f
  | Some _ => append_entity db h f entity
  end.

Definition composite_fetch_row (db : database) (h : heap)
    (fetchers : list fetcher) (r : row) : result (list fetcher) :=
  match r with
  | RowEntity entity => mapR (composite_fetch_one db h entity) fetchers
  | RowPair _ _ => Raise AttributeError
  end.

(** [CompositeFetcher.fetch] *)
Definition composite_fetch (db : database) (fetchers : list fetcher)
    : M (list fetcher) :=
  h ← get_heap;
  q ← liftR (composite_related_entities db h fetchers);
  rows ← iterate db q;
  liftR (foldR (composite_fetch_row db h) fetchers rows).

(** [CompositeFetcher.populate] *)
Definition composite_populate (db : database) (fetchers : list fetcher) : M unit :=
  forM (populate db) fetchers.

(** ** [class FetchingCoordinator] and [batch_fetch] *)

Fixpoint parse_fetchers (db : database) (h : heap) (entities : list pyref)
    (paths : list path_spec) (populate_backrefs : bool) : result (list fetcher) :=
  match paths with
  | [] => Ok []
  | p :: ps =>
      x ← parse db h entities p populate_backrefs;
      fs ← parse_fetchers db h entities ps populate_backrefs;
      Ok (path_fetcher x :: fs)
  end.

(** [FetchingCoordinator.__call__] *)
Definition coordinator_call (db : database) (entities : list pyref)
    (p : path_spec) : M unit :=
  let '(p, populate_backrefs) :=
    match p with
    | with_backrefs p' => (p', true)
    | _ => (p, false)
    end in
  match p with
  | CompositePath paths =>
      h ← get_heap;
      fetchers ← liftR (parse_fetchers db h entities paths populate_backrefs);
      fetchers ← liftR (CompositeFetcher_init fetchers);
      fetchers ← composite_fetch db fetchers;
      composite_populate db fetchers
  | _ =>
      h ← get_heap;
      x ← liftR (parse db h entities p populate_backrefs);
      f ← fetch db (path_fetcher x);
      populate db f
  end.

(** [batch_fetch(entities, *attr_paths)] *)
Definition batch_fetch (db : database) (entities : list pyref)
    (attr_paths : list path_spec) : M unit :=
  match entities with
  | [] => mret tt
  | _ :: _ => forM (coordinator_call db entities) attr_paths
  end.

(** ** Vocabulary of the statements *)

Definition as_list (v : value) : list pyref :=
  match v with
  | VList l => l
  | VOne _ => []
  end.

(** What a result row with key [kr.1] and entity [kr.2] does to a
    [parent_dict]: an assignment for [ManyToOneFetcher], an [append]
    for the two others. *)
Definition add_row (kind : fetcher_kind) (d : gmap colval value)
    (kr : colval * pyref) : gmap colval value :=
  match kind with
  | ManyToOneFetcher => <[kr.1 := VOne kr.2]> d
  | _ => <[kr.1 := VList (as_list (default (VList []) (d !! kr.1)) ++ [kr.2])]> d
  end.

Definition accumulate (kind : fetcher_kind) (d : gmap colval value)
    (krs : list (colval * pyref)) : gmap colval value :=
  foldl (add_row kind) d krs.

(** The slot of a key that received the entities [es], in that order:
    the list itself, or its last element for [ManyToOneFetcher]. *)
Definition group_of (kind : fetcher_kind) (es : list pyref) : value :=
  match kind with
  | ManyToOneFetcher => VOne (List.last es PyNone)
  | _ => VList es
  end.

(** The key and the entity of a result row, for a fetcher whose remote
    column is [rc]. *)
Definition keyed (h : heap) (rc : string) (r : row) : colval * pyref :=
  match r with
  | RowPair e parent_id => (parent_id, e)
  | RowEntity e =>
      (match getattr_col h e (Some rc) with Ok c => c | Raise _ => None end, e)
  end.

Definition with_key (k : colval) (krs : list (colval * pyref)) : list pyref :=
  map snd (List.filter (λ kr, bool_decide (kr.1 = k)) krs).

(** The query a fetcher runs, given its remote column and the local
    values. *)
Definition fetch_query (f : fetcher) (rc : string) (vals : list colval) : query :=
  match f_kind f, rel_secondary (prop f) with
  | ManyToManyFetcher, Some secondary =>
      QJoin (path_model (f_path f)) secondary (rel_secondaryjoin (prop f)) rc vals
  | _, _ => QFilter (path_model (f_path f)) (In_ rc vals)
  end.

(** The rows of [model] that satisfy [c] and hold [k] in column [rc],
    in table order. *)
Definition matching_rows (db : database) (h : heap) (model : string)
    (c : condition) (rc : string) (k : colval) : list pyref :=
  map PyObj
    (List.filter (λ l, sat (row_cols h l) c
                       && bool_decide (col_of (row_cols h l) rc = k))
       (table db model)).

(** The association rows that link the row [l] of the related table to
    the parent key [k], among those whose column [rc] is in [vals]. *)
Definition links (db : database) (h : heap) (secondary : string)
    (on : string * string) (rc : string) (vals : list colval) (k : colval)
    (l : loc) : list columns :=
  List.filter (λ a, join_on (row_cols h l) a on && sat a (In_ rc vals)
                    && bool_decide (col_of a rc = k))
    (assoc_rows db secondary).

(** The entities a join files under the parent key [k]: for every
    association row that [keep] retains and that has [k] in column
    [rc], in the order of the association table, the rows of the
    related table the join condition pairs with it; an entity is listed
    once, at its first occurrence. *)
Definition linked_rows (db : database) (h : heap) (model secondary : string)
    (on : string * string) (rc : string) (keep : columns → bool) (k : colval)
    : list pyref :=
  unique_list
    (flat_map (λ a,
       if keep a && bool_decide (col_of a rc = k)
       then map PyObj
              (List.filter (λ l, join_on (row_cols h l) a on) (table db model))
       else [])
       (assoc_rows db secondary)).

(** The parent keys of the fetched rows of the related entity [e]. *)
Definition parent_keys (krs : list (colval * pyref)) (e : pyref) : list colval :=
  map fst (List.filter (λ kr, bool_decide (kr.2 = e)) krs).

(** Two heaps with the same instances, classes and column values: they
    differ at most in the loaded relationships. *)
Definition same_rows (h h' : heap) : Prop :=
  ∀ l, (obj_class <$> h !! l) = (obj_class <$> h' !! l)
       ∧ (obj_cols <$> h !! l) = (obj_cols <$> h' !! l).

(** The loaded value of relationship [key] on the instance at [l]. *)
Definition rel_at (h : heap) (l : loc) (key : string) : option value :=
  o ← h !! l; obj_rels o !! key.

Definition values_are_lists (d : gmap colval value) : Prop :=
  ∀ k v, d !! k = Some v → ∃ l, v = VList l.

(** The instance at [e] can receive relationship [key] through
    [set_committed_value]. *)
Definition accepts (db : database) (h : heap) (key : string) (e : pyref) : bool :=
  match e with
  | PyNone => false
  | PyObj l =>
      match h !! l with
      | Some o => has_relationship db (obj_class o) key
      | None => false
      end
  end.

(** A result row a fetcher of class [kind] can process: a pair for
    [ManyToManyFetcher], an entity with a readable remote column for
    the others. *)
Definition row_ok (h : heap) (rc : string) (kind : fetcher_kind) (r : row) : Prop :=
  match kind, r with
  | ManyToManyFetcher, RowPair _ _ => True
  | ManyToManyFetcher, RowEntity _ => False
  | _, RowEntity e => ∃ c, getattr_col h e (Some rc) = Ok c
  | _, RowPair _ _ => False
  end.

(** What makes the query of a fetcher well formed: the first entity
    belongs to the session, the remote column is [rc], the local column
    of every entity reads as [vals], and the related class has column
    [rc] (or, for [ManyToManyFetcher], there is a secondary table). *)
Definition fetchable (db : database) (h : heap) (f : fetcher) (rc : string)
    (vals : list colval) : Prop :=
  path_session h (f_path f) = Ok tt
  ∧ remote_column_name db h f = Ok (Some rc)
  ∧ local_values_list h f = Ok vals
  ∧ match f_kind f with
    | ManyToManyFetcher => is_Some (rel_secondary (prop f))
    | _ => ∃ c, class_getattr db (path_model (f_path f)) rc = Ok (ColumnProperty c)
    end.

(** The keys and entities of the rows a fetcher reads. *)
Definition fetched_rows (db : database) (h : heap) (f : fetcher) (rc : string)
    (vals : list colval) : list (colval * pyref) :=
  map (keyed h rc) (run_query db h (fetch_query f rc vals)).

(** A step of the state that keeps the instances, their classes and
    columns, and every loaded relationship except the one named [key]. *)
Definition frame (key : option string) (s s' : state) : Prop :=
  same_rows (st_heap s) (st_heap s')
  ∧ ∀ l n, key ≠ Some n → rel_at (st_heap s') l n = rel_at (st_heap s) l n.

Definition preserves {A} (R : state → state → Prop) (m : M A) : Prop :=
  ∀ s, R s (m s).2.

(** The row [l] has column [rc] as an attribute. *)
Definition has_column (h : heap) (rc : string) (l : loc) : bool :=
  match row_cols h l !! rc with
  | Some _ => true
  | None => false
  end.




(** [local_values] of a related entity, [None] when it raises. *)
Definition child_key (h : heap) (f : fetcher) (e : pyref) : colval :=
  match local_values h f e with
  | Ok k => k
  | Raise _ => None
  end.

(** [session.query(cls).get(ident)], [None] when it raises. *)
Definition parent_of (db : database) (h : heap) (cls : string) (ident : colval)
    : pyref :=
  match query_get db h cls ident with
  | Ok r => r
  | Raise _ => PyNone
  end.

(** The list [populate_backrefs] builds for key [k]: one parent for
    every fetched row whose related entity has key [k]. *)
Definition backref_list (db : database) (h : heap) (f : fetcher) (cls : string)
    (krs : list (colval * pyref)) (k : colval) : list pyref :=
  map (λ kr, parent_of db h cls kr.1)
    (List.filter (λ kr, bool_decide (child_key h f kr.2 = k)) krs).

Definition pair_row (kr : colval * pyref) : row := RowPair kr.2 kr.1.


(** The related entities of a parent whose local value is [k], read
    off the tables alone: the rows of the related table with [k] in
    column [rc], or, through a secondary table, the entities that
    association rows with [k] in column [rc] link to it, each once.
    NULL relates to nothing. *)
Definition related_rows (db : database) (h : heap) (p : path) (rc : string)
    (k : colval) : list pyref :=
  match k with
  | None => []
  | Some z =>
      match rel_secondary (path_property p) with
      | None =>
          map PyObj
            (List.filter (λ l, bool_decide (col_of (row_cols h l) rc = Some z))
               (table db (path_model p)))
      | Some secondary =>
          linked_rows db h (path_model p) secondary
            (rel_secondaryjoin (path_property p)) rc (λ _, true) (Some z)
      end
  end.

(** A path specifier that [Path.parse] accepts. *)
Definition simple_spec (p : path_spec) : Prop :=
  match p with
  | PStr _ | PAttr _ => True
  | _ => False
  end.

(** The last step of [Path.parse]: the attribute [a] is resolved on
    the class of the first entity. *)
Definition resolve (db : database) (h : heap) (entities : list pyref) (a : string)
    (populate_backrefs : bool) : result path :=
  e ← index0 entities;
  cls ← class_of h e;
  attr ← class_getattr db cls a;
  Path_init entities attr populate_backrefs.

(** What [FetchingCoordinator.__call__] passes on after it removed one
    [with_backrefs] marker. *)
Definition unwrap (p : path_spec) : path_spec :=
  match p with
  | with_backrefs p' => p'
  | _ => p
  end.

Definition wants_backrefs (p : path_spec) : bool :=
  match p with
  | with_backrefs _ => true
  | _ => false
  end.



(** A path specifier with one hop: an attribute handle or a name
    without dot. *)
Definition one_hop (p : path_spec) : Prop :=
  match p with
  | PAttr _ => True
  | PStr a => no_dot a = true
  | _ => False
  end.

(** ** A small database

    Users own phones (one-to-many [phones] and [owned_phones], inverse
    many-to-one [user]) and belong to groups (many-to-many [groups]
    through [user_group], and [managed_groups] through
    [group_manager], which declares no inverse).  [same_user_phone] is
    a many-to-one relationship of a phone to a phone of the same user:
    its remote column is not unique. *)
Module Sample.

Definition c_id := mkColumn "id" [].
Definition c_user_id := mkColumn "user_id" ["user"].
Definition c_owner_id := mkColumn "owner_id" ["user"].
Definition c_group_id := mkColumn "group_id" ["group"].

Definition r_phones := mkRelationship "phones" "Phone" None ("", "")
  ONETOMANY [c_id] [c_user_id] (Some "user").
Definition r_owned_phones := mkRelationship "owned_phones" "Phone" None ("", "")
  ONETOMANY [c_id] [c_owner_id] None.
Definition r_user := mkRelationship "user" "User" None ("", "")
  MANYTOONE [c_user_id] [c_id] (Some "phones").
Definition r_same_user_phone := mkRelationship "same_user_phone" "Phone" None
  ("", "") MANYTOONE [c_user_id] [c_user_id] None.
Definition r_groups := mkRelationship "groups" "Group" (Some "user_group")
  ("id", "group_id") MANYTOMANY [c_id] [c_group_id; c_user_id] (Some "users").
Definition r_managed_groups := mkRelationship "managed_groups" "Group"
  (Some "group_manager") ("id", "group_id") MANYTOMANY [c_id]
  [c_group_id; c_user_id] None.
Definition r_users := mkRelationship "users" "User" (Some "user_group")
  ("id", "user_id") MANYTOMANY [c_id] [c_user_id; c_group_id] (Some "groups").

Definition User := mkClass "user" "id" (list_to_map [
  ("id", ColumnProperty c_id);
  ("phones", RelationshipProperty r_phones);
  ("owned_phones", RelationshipProperty r_owned_phones);
  ("groups", RelationshipProperty r_groups);
  ("managed_groups", RelationshipProperty r_managed_groups)]).
Definition Phone := mkClass "phone" "id" (list_to_map [
  ("id", ColumnProperty c_id);
  ("user_id", ColumnProperty c_user_id);
  ("owner_id", ColumnProperty c_owner_id);
  ("user", RelationshipProperty r_user);
  ("same_user_phone", RelationshipProperty r_same_user_phone)]).
Definition Group := mkClass "group" "id" (list_to_map [
  ("id", ColumnProperty c_id);
  ("users", RelationshipProperty r_users)]).

Definition cols (l : list (string * option Z)) : columns := list_to_map l.

Definition user (id : Z) : obj := mkObj "User" (cols [("id", Some id)]) ∅.
Definition phone (id : Z) (user_id owner_id : option Z) : obj :=
  mkObj "Phone" (cols [("id", Some id); ("user_id", user_id); ("owner_id", owner_id)]) ∅.
Definition group (id : Z) : obj := mkObj "Group" (cols [("id", Some id)]) ∅.
Definition link (user_id group_id : Z) : columns :=
  cols [("user_id", Some user_id); ("group_id", Some group_id)].

Definition u1 : loc := 1%positive.
Definition u2 : loc := 2%positive.
Definition p1 : loc := 11%positive.
Definition p2 : loc := 12%positive.
Definition p3 : loc := 13%positive.
Definition g1 : loc := 21%positive.
Definition g2 : loc := 22%positive.

Definition h0 : heap := list_to_map [
  (u1, user 1); (u2, user 2);
  (p1, phone 1 (Some 1%Z) (Some 2%Z));
  (p2, phone 2 (Some 1%Z) None);
  (p3, phone 3 None (Some 1%Z));
  (g1, group 1); (g2, group 2)].

Definition db0 : database := mkDatabase
  (list_to_map [("User", User); ("Phone", Phone); ("Group", Group)])
  (list_to_map [("User", [u1; u2]); ("Phone", [p1; p2; p3]); ("Group", [g1; g2])])
  (list_to_map [("user_group", [link 1 1; link 1 1; link 2 2]);
                ("group_manager", [link 2 1])]).

Definition st0 : state := mkState h0 0.

(** The heap after [batch_fetch([p1, p3], 'user')]. *)
Definition h_user : heap :=
  st_heap (batch_fetch db0 [PyObj p1; PyObj p3] [PStr "user"] st0).2.

(** The heap after [batch_fetch([u1, u2], 'phones')]. *)
Definition h_phones : heap :=
  st_heap (batch_fetch db0 [PyObj u1; PyObj u2] [PStr "phones"] st0).2.

Definition p_phones : path := mkPath [PyObj u1; PyObj u2] r_phones false.
Definition p_user : path := mkPath [PyObj p1; PyObj p3] r_user false.
Definition p_groups : path := mkPath [PyObj u1; PyObj u2] r_groups false.
Definition p_same_user_phone : path := mkPath [PyObj p1] r_same_user_phone false.


Definition p_groups_backrefs : path := mkPath [PyObj u1; PyObj u2] r_groups true.

End Sample.

(** ** A class with an inherited relationship

    [Manager] inherits the many-to-many [groups] of [User] and has a
    table of its own; the columns of [user_group] still refer to the
    table [user]. *)
Module Inherited.

Definition Manager := mkClass "manager" "id" (list_to_map [
  ("id", ColumnProperty Sample.c_id);
  ("groups", RelationshipProperty Sample.r_groups)]).

Definition m1 : loc := 31%positive.

Definition h : heap :=
  <[m1 := mkObj "Manager" (Sample.cols [("id", Some 1%Z)]) ∅]> Sample.h0.

Definition db : database := mkDatabase
  (<["Manager" := Manager]> (db_classes Sample.db0))
  (db_rows Sample.db0)
  (db_secondary Sample.db0).

End Inherited.

(** ** An association table in another order

    The database of [Sample] with the rows of [user_group] replaced:
    the first user is linked to the second group before the first. *)
Module Shuffled.

Definition db : database := mkDatabase
  (db_classes Sample.db0)
  (db_rows Sample.db0)
  (<["user_group" := [Sample.link 1 2; Sample.link 1 1; Sample.link 2 1]]>
     (db_secondary Sample.db0)).

End Shuffled.

(** * Properties *)

(** ** Results and the state monad *)

Lemma bindR_Ok {A B} (a : A) (k : A → result B) : (Ok a ≫= k) = k a.
Proof. reflexivity. Qed.

Lemma bindR_Raise {A B} (e : exn) (k : A → result B) : (Raise e ≫= k) = Raise e.
Proof. reflexivity. Qed.

Ltac munfold :=
  unfold mbind, M_bind, result_bind, mret, M_ret, result_ret, liftR, get_heap in *.

(** ** [split] and [join] *)

Lemma split_dot_no_dot s : no_dot s = true → split_dot s = (s, []).
Proof.
  induction s as [|c s IH]; simpl; [done|].
  intros [Hc Hs]%andb_true_iff. rewrite (IH Hs).
  by destruct (Ascii.eqb c ".").
Qed.

Lemma split_dot_segments s :
  no_dot (split_dot s).1 = true ∧ Forall (λ x, no_dot x = true) (split_dot s).2.
Proof.
  induction s as [|c s [IH1 IH2]]; simpl; [by split|].
  destruct (split_dot s) as [hd tl]; simpl in *.
  destruct (Ascii.eqb c ".") eqn:Hc; simpl.
  - split; [done|]. by constructor.
  - rewrite Hc. by split.
Qed.

Lemma split_dot_cons a rest :
  no_dot a = true →
  split_dot (a +:+ ("." +:+ rest)) = (a, (split_dot rest).1 :: (split_dot rest).2).
Proof.
  induction a as [|c a IH].
  - intros _. change (split_dot ("" +:+ ("." +:+ rest)))
      with (let '(hd, tl) := split_dot rest in ("", hd :: tl)).
    by destruct (split_dot rest).
  - simpl. intros [Hc Ha]%andb_true_iff.
    change (split_dot (String c a +:+ ("." +:+ rest)))
      with (let '(hd, tl) := split_dot (a +:+ ("." +:+ rest)) in
            if Ascii.eqb c "." then ("", hd :: tl) else (String c hd, tl)).
    rewrite (IH Ha). by destruct (Ascii.eqb c ".").
Qed.

(** Splitting what [join] built from dot-free segments gives the
    segments back: the recursive call of [Path.parse] sees [attrs[1:]]. *)
Lemma split_join b tl :
  no_dot b = true → Forall (λ x, no_dot x = true) tl →
  split_dot (join_dot (b :: tl)) = (b, tl).
Proof.
  revert b. induction tl as [|c tl IH]; intros b Hb Htl.
  - simpl. by apply split_dot_no_dot.
  - inversion Htl; subst.
    change (join_dot (b :: c :: tl)) with (b +:+ ("." +:+ join_dot (c :: tl))).
    rewrite split_dot_cons by done. by rewrite IH.
Qed.

(** The recursion of the source: on a dotted string, [Path.parse]
    calls itself on the related entities and the joined rest. *)
Lemma parse_dotted db h ents s a b tl pb :
  split_dot s = (a, b :: tl) →
  parse db h ents (PStr s) pb =
  (related ← related_entities_of h ents a;
   parse db h related (PStr (join_dot (b :: tl))) pb).
Proof.
  intros Hs. unfold parse at 1. rewrite Hs.
  destruct (split_dot_segments s) as [_ H2]. rewrite Hs in H2; simpl in H2.
  inversion H2; subst. simpl parse_attrs.
  destruct (related_entities_of h ents a); [|done].
  rewrite !bindR_Ok. unfold parse. by rewrite split_join.
Qed.

Lemma related_entities_of_lists h ents lists a :
  Forall2 (λ e l, getattr h e a = Ok (PVRel (VList l))) ents lists →
  related_entities_of h ents a = Ok (concat lists).
Proof.
  induction 1 as [|e l ents lists He _ IH]; simpl; [done|].
  by rewrite He, !bindR_Ok, IH.
Qed.

Lemma parse_attrs_nil db h a tl pb :
  parse_attrs db h [] a tl pb = Raise IndexError.
Proof. revert a. induction tl as [|b tl IH]; intros a; simpl; [done|]. apply IH. Qed.

Lemma parse_attrs_empty_hop db h pb pre : ∀ ents a tl post,
  pre ≠ [] → post ≠ [] → a :: tl = pre ++ post →
  foldR (related_entities_of h) ents pre = Ok [] →
  parse_attrs db h ents a tl pb = Raise IndexError.
Proof.
  induction pre as [|x pre IH]; intros ents a tl post Hpre Hpost Heq Hfold; [done|].
  simpl in Heq. injection Heq as <- ->.
  simpl in Hfold. destruct (related_entities_of h ents a) as [related|] eqn:Hrel; [|done].
  rewrite bindR_Ok in Hfold.
  destruct pre as [|y pre].
  - simpl in Hfold. injection Hfold as ->. destruct post as [|b post]; [done|].
    simpl. rewrite Hrel, bindR_Ok. apply parse_attrs_nil.
  - simpl. rewrite Hrel, bindR_Ok. by apply (IH _ _ _ post).
Qed.

(** ** The entry point *)

Lemma coordinator_call_parse_error db ents p q e st :
  match p with PStr _ | PAttr _ => True | _ => False end →
  (q = p ∨ q = with_backrefs p) →
  (∀ pb, parse db (st_heap st) ents p pb = Raise e) →
  coordinator_call db ents q st = (Raise e, st).
Proof.
  intros Hp0 Hq Hp. unfold coordinator_call.
  destruct Hq as [-> | ->]; destruct p; try done;
    munfold; cbv beta iota; by rewrite Hp.
Qed.

Lemma batch_fetch_single_error db e es q err st :
  coordinator_call db (e :: es) q st = (Raise err, st) →
  batch_fetch db (e :: es) [q] st = (Raise err, st).
Proof. intros H. unfold batch_fetch. simpl. munfold. by rewrite H. Qed.

(** ** Path classification and parsing *)

(** C9: with an empty collection of entities [batch_fetch] returns at
    once, whatever the path specifiers are: no exception, the heap is
    untouched and the number of executed queries does not change. *)
Theorem batch_fetch_empty (db : database) (attr_paths : list path_spec) (st : state) :
  batch_fetch db [] attr_paths st = (Ok tt, st).
Proof. reflexivity. Qed.

(** C7: the class of the fetcher of a path is decided by the presence
    of a secondary table and, without one, by the direction being
    many-to-one; nothing else of the relationship, of the entities or
    of the backref flag is read. *)
Theorem fetcher_class_rule (entities : list pyref) (r : relationship) (pb : bool) :
  ∃ p, Path_init entities (RelationshipProperty r) pb = Ok p ∧
       f_kind (path_fetcher p) =
         match rel_secondary r with
         | Some _ => ManyToManyFetcher
         | None =>
             if decide (rel_direction r = MANYTOONE) then ManyToOneFetcher
             else OneToManyFetcher
         end.
Proof.
  eexists. split; [reflexivity|]. simpl. unfold fetcher_class. simpl.
  destruct (rel_secondary r); [done|]. by destruct (rel_direction r).
Qed.

(** C10: when the hops [pre] of a dotted path lead from the root
    entities to an empty list of related entities and more hops
    follow, [Path.parse] raises [IndexError] (it indexes the empty
    list), and so does [batch_fetch], leaving the state as it was. *)
Theorem parse_empty_intermediate_hop (db : database) (st : state)
    (entities : list pyref) (s : string) (pre post : list string) (p : path_spec) :
  entities ≠ [] → pre ≠ [] → post ≠ [] →
  (split_dot s).1 :: (split_dot s).2 = pre ++ post →
  foldR (related_entities_of (st_heap st)) entities pre = Ok [] →
  p = PStr s ∨ p = with_backrefs (PStr s) →
  (∀ pb, parse db (st_heap st) entities (PStr s) pb = Raise IndexError) ∧
  batch_fetch db entities [p] st = (Raise IndexError, st).
Proof.
  intros Hents Hpre Hpost Hsplit Hfold Hp.
  assert (Hparse : ∀ pb, parse db (st_heap st) entities (PStr s) pb = Raise IndexError).
  { intros pb. unfold parse. destruct (split_dot s) as [a tl]; simpl in Hsplit.
    by apply (parse_attrs_empty_hop _ _ _ pre _ _ _ post). }
  split; [done|].
  destruct entities as [|e es]; [done|].
  apply batch_fetch_single_error.
  by apply (coordinator_call_parse_error _ _ (PStr s)).
Qed.

Lemma parse_empty_intermediate_hop_witness :
  batch_fetch Sample.db0 [PyObj Sample.u2] [PStr "phones.user"]
    (mkState Sample.h_phones 0) = (Raise IndexError, mkState Sample.h_phones 0).
Proof.
  apply (parse_empty_intermediate_hop Sample.db0 (mkState Sample.h_phones 0)
           [PyObj Sample.u2] "phones.user" ["phones"] ["user"]).
  - done.
  - done.
  - done.
  - reflexivity.
  - vm_compute. reflexivity.
  - by left.
Defined.

(** C5 (amended): with at least one entity, a single path specifier
    that names a scalar column -- as an attribute handle, or as a
    dot-free string resolved on the class of the first entity, with or
    without the [with_backrefs] marker -- makes [batch_fetch] raise the
    'not a relationship' exception before any fetch or populate: the
    state is unchanged. *)
Theorem batch_fetch_scalar_column (db : database) (st : state) (e : pyref)
    (es : list pyref) (c : column) (p q : path_spec) :
  (p = PAttr (ColumnProperty c) ∨
   ∃ s cls, p = PStr s ∧ no_dot s = true ∧
            class_of (st_heap st) e = Ok cls ∧
            class_getattr db cls s = Ok (ColumnProperty c)) →
  q = p ∨ q = with_backrefs p →
  batch_fetch db (e :: es) [q] st = (Raise NotARelationshipError, st).
Proof.
  intros Hp Hq. apply batch_fetch_single_error.
  apply (coordinator_call_parse_error _ _ p); [|done|].
  - by destruct Hp as [-> | (s & cls & -> & _)].
  - intros pb. destruct Hp as [-> | (s & cls & -> & Hs & Hcls & Hattr)]; [done|].
    unfold parse. rewrite (split_dot_no_dot _ Hs). simpl.
    by rewrite Hcls, bindR_Ok, Hattr.
Qed.

Lemma batch_fetch_scalar_column_witness :
  batch_fetch Sample.db0 [PyObj Sample.u1; PyObj Sample.u2]
    [with_backrefs (PStr "id")] Sample.st0
  = (Raise NotARelationshipError, Sample.st0).
Proof.
  apply (batch_fetch_scalar_column Sample.db0 Sample.st0 (PyObj Sample.u1)
           [PyObj Sample.u2] Sample.c_id (PStr "id")).
  - right. exists "id", "User". repeat split; reflexivity.
  - by right.
Defined.

(** C5 as stated fails on an empty collection of entities: the path
    names the scalar column [id] and nothing is raised. *)
Lemma batch_fetch_scalar_column_empty :
  class_getattr Sample.db0 "User" "id" = Ok (ColumnProperty Sample.c_id) ∧
  (batch_fetch Sample.db0 [] [PStr "id"] Sample.st0).1 ≠ Raise NotARelationshipError ∧
  (batch_fetch Sample.db0 [] [PAttr (ColumnProperty Sample.c_id)] Sample.st0).1
    ≠ Raise NotARelationshipError.
Proof. split; [reflexivity|]. split; simpl; discriminate. Qed.

(** C2 (amended): when the first hop [a] of a dotted path is a loaded
    list on every root entity, the rest of the path is resolved
    against the concatenation of those lists, in the order of the root
    entities and with repetitions kept; for a two-hop path the entities
    of the resulting [Path] are that whole concatenation. *)
Theorem parse_flattens_first_hop (db : database) (h : heap) (entities : list pyref)
    (lists : list (list pyref)) (a rest : string) (pb : bool) :
  no_dot a = true →
  Forall2 (λ e l, getattr h e a = Ok (PVRel (VList l))) entities lists →
  parse db h entities (PStr (a +:+ ("." +:+ rest))) pb
    = parse db h (concat lists) (PStr rest) pb ∧
  (no_dot rest = true →
   ∀ p, parse db h entities (PStr (a +:+ ("." +:+ rest))) pb = Ok p →
        path_entities p = concat lists).
Proof.
  intros Ha Hlists.
  assert (Heq : parse db h entities (PStr (a +:+ ("." +:+ rest))) pb
                = parse db h (concat lists) (PStr rest) pb).
  { unfold parse. rewrite (split_dot_cons _ _ Ha).
    destruct (split_dot rest) as [b tl]. simpl.
    by rewrite (related_entities_of_lists _ _ _ _ Hlists), bindR_Ok. }
  split; [done|].
  intros Hrest p. rewrite Heq. unfold parse.
  rewrite (split_dot_no_dot _ Hrest). simpl.
  destruct (index0 (concat lists)); [|done]. rewrite bindR_Ok.
  destruct (class_of h a0); [|done]. rewrite bindR_Ok.
  destruct (class_getattr db a1 rest) as [[?|r]|]; try done.
  simpl. by intros [= <-].
Qed.

Lemma parse_flattens_first_hop_witness :
  parse Sample.db0 Sample.h_phones [PyObj Sample.u1; PyObj Sample.u2]
    (PStr "phones.user") false
  = Ok (mkPath [PyObj Sample.p1; PyObj Sample.p2] Sample.r_user false).
Proof.
  etransitivity.
  - apply (parse_flattens_first_hop Sample.db0 Sample.h_phones
             [PyObj Sample.u1; PyObj Sample.u2]
             [[PyObj Sample.p1; PyObj Sample.p2]; []] "phones" "user" false).
    + reflexivity.
    + repeat constructor.
  - reflexivity.
Defined.

(** C2 as stated fails on a to-one hop: [p1.user] is an entity and
    [p3.user] is null; the spec would resolve [phones] against [[u1]],
    which works, and the code raises [TypeError]. *)
Lemma parse_to_one_hop_raises :
  getattr Sample.h_user (PyObj Sample.p1) "user" = Ok (PVRel (VOne (PyObj Sample.u1))) ∧
  getattr Sample.h_user (PyObj Sample.p3) "user" = Ok (PVRel (VOne PyNone)) ∧
  parse Sample.db0 Sample.h_user [PyObj Sample.u1] (PStr "phones") false
    = Ok (mkPath [PyObj Sample.u1] Sample.r_phones false) ∧
  parse Sample.db0 Sample.h_user [PyObj Sample.p1; PyObj Sample.p3]
    (PStr "user.phones") false = Raise TypeError ∧
  parse Sample.db0 Sample.h_user [PyObj Sample.p3] (PStr "user.phones") false
    = Raise TypeError ∧
  (batch_fetch Sample.db0 [PyObj Sample.p1; PyObj Sample.p3] [PStr "user.phones"]
     (mkState Sample.h_user 0)).1 = Raise TypeError.
Proof. repeat split; vm_compute; reflexivity. Qed.

(** ** Accumulating rows in [parent_dict] *)

Lemma accumulate_snoc kind d krs kr :
  accumulate kind d (krs ++ [kr]) = add_row kind (accumulate kind d krs) kr.
Proof. unfold accumulate. apply foldl_snoc. Qed.

Lemma with_key_snoc k krs kr :
  with_key k (krs ++ [kr]) =
  with_key k krs ++ (if bool_decide (kr.1 = k) then [kr.2] else []).
Proof.
  unfold with_key. rewrite List.filter_app, map_app. simpl.
  by destruct (bool_decide (kr.1 = k)).
Qed.

Lemma values_are_lists_empty : values_are_lists ∅.
Proof. intros k v. by rewrite lookup_empty. Qed.

Lemma add_row_lists kind d kr :
  kind ≠ ManyToOneFetcher → values_are_lists d → values_are_lists (add_row kind d kr).
Proof.
  intros Hk Hd k v. unfold add_row.
  destruct kind; [|done|]; (destruct (decide (kr.1 = k)) as [->|Hne];
    [rewrite lookup_insert_eq; intros [= <-]; eauto
    |rewrite lookup_insert_ne by done; apply Hd]).
Qed.

Lemma accumulate_lists kind d krs :
  kind ≠ ManyToOneFetcher → values_are_lists d →
  values_are_lists (accumulate kind d krs).
Proof.
  intros Hk Hd. induction krs as [|kr krs IH] using rev_ind; [done|].
  rewrite accumulate_snoc. by apply add_row_lists.
Qed.

(** To-many fetchers: the list of a key grows by the entities of the
    rows that carry the key, in order. *)
Lemma accumulate_to_many kind d krs k :
  kind ≠ ManyToOneFetcher →
  as_list (default (VList []) (accumulate kind d krs !! k)) =
  as_list (default (VList []) (d !! k)) ++ with_key k krs.
Proof.
  intros Hk. induction krs as [|kr krs IH] using rev_ind.
  - unfold with_key. simpl. by rewrite app_nil_r.
  - rewrite accumulate_snoc, with_key_snoc, app_assoc, <- IH.
    unfold add_row. destruct kind; [|done|];
      (case_bool_decide as Hkr;
       [subst k; by rewrite lookup_insert_eq
       |rewrite lookup_insert_ne by done; by rewrite app_nil_r]).
Qed.

(** [ManyToOneFetcher]: the slot of a key holds the entity of the last
    row that carries the key. *)
Lemma accumulate_to_one d krs k :
  accumulate ManyToOneFetcher d krs !! k =
  match with_key k krs with
  | [] => d !! k
  | es => Some (VOne (List.last es PyNone))
  end.
Proof.
  induction krs as [|kr krs IH] using rev_ind; [done|].
  rewrite accumulate_snoc, with_key_snoc. unfold add_row.
  case_bool_decide as Hkr.
  - subst k. rewrite lookup_insert_eq.
    pose proof (last_last (with_key kr.1 krs) kr.2 PyNone) as Hlast.
    destruct (with_key kr.1 krs) as [|e es]; [done|].
    rewrite <- Hlast at 1. reflexivity.
  - rewrite lookup_insert_ne by done. by rewrite app_nil_r.
Qed.

(** The slot a fetcher that started empty holds for a key. *)
Lemma accumulate_group kind krs k :
  default (dd_default kind) (accumulate kind ∅ krs !! k) = group_of kind (with_key k krs).
Proof.
  destruct (decide (kind = ManyToOneFetcher)) as [->|Hk].
  - rewrite accumulate_to_one, lookup_empty. simpl.
    by destruct (with_key k krs).
  - pose proof (accumulate_to_many kind ∅ krs k Hk) as Hl.
    rewrite lookup_empty in Hl. simpl in Hl.
    pose proof (accumulate_lists kind ∅ krs Hk values_are_lists_empty k) as Hv.
    destruct (accumulate kind ∅ krs !! k) as [v|] eqn:Hlook; simpl in *.
    + destruct (Hv v eq_refl) as [l ->]. simpl in Hl. rewrite Hl.
      by destruct kind.
    + rewrite <- Hl. by destruct kind.
Qed.

Lemma with_key_not_in k krs : k ∉ krs.*1 → with_key k krs = [].
Proof.
  unfold with_key. induction krs as [|kr krs IH]; [done|].
  rewrite fmap_cons, not_elem_of_cons. intros [Hne Hnin]. simpl.
  rewrite bool_decide_eq_false_2 by done. by apply IH.
Qed.

(** ** [unique_list] *)

Lemma filter_filter_andb {A} (P Q : A → bool) l :
  List.filter P (List.filter Q l) = List.filter (λ x, Q x && P x) l.
Proof.
  induction l as [|x l IH]; simpl; [done|].
  destruct (Q x); simpl; [|done]. destruct (P x); by rewrite IH.
Qed.

Lemma filter_map_comm {A B} (g : A → B) (P : B → bool) l :
  List.filter P (map g l) = map g (List.filter (λ x, P (g x)) l).
Proof.
  induction l as [|x l IH]; simpl; [done|]. destruct (P (g x)); simpl; by rewrite IH.
Qed.

Lemma elem_of_filter_bool {A} (P : A → bool) l x :
  x ∈ List.filter P l ↔ x ∈ l ∧ P x = true.
Proof. rewrite !list_elem_of_In. apply filter_In. Qed.

Lemma elem_of_unique_list {A} `{EqDecision A} (x : A) l :
  x ∈ unique_list l ↔ x ∈ l.
Proof.
  induction l as [|a l IH]; simpl; [done|].
  rewrite !elem_of_cons, elem_of_filter_bool, IH. split.
  - intros [->|[Hx _]]; [by left|by right].
  - intros [->|Hx]; [by left|].
    destruct (decide (x = a)) as [->|Hne]; [by left|]. right.
    split; [done|]. by apply bool_decide_eq_true.
Qed.

Lemma NoDup_filter_bool {A} (P : A → bool) l : NoDup l → NoDup (List.filter P l).
Proof. rewrite !NoDup_ListNoDup. apply List.NoDup_filter. Qed.

Lemma NoDup_unique_list {A} `{EqDecision A} (l : list A) : NoDup (unique_list l).
Proof.
  induction l as [|a l IH]; simpl; [constructor|].
  apply NoDup_cons. split; [|by apply NoDup_filter_bool].
  rewrite elem_of_filter_bool. intros [_ Ha]. by apply bool_decide_eq_true in Ha.
Qed.

(** Filtering commutes with [unique_list]. *)
Lemma unique_list_filter {A} `{EqDecision A} (P : A → bool) (l : list A) :
  List.filter P (unique_list l) = unique_list (List.filter P l).
Proof.
  induction l as [|a l IH]; simpl; [done|].
  rewrite filter_filter_andb.
  destruct (P a) eqn:Ha; simpl.
  - f_equal. rewrite <- IH, filter_filter_andb. apply filter_ext.
    intros x. apply andb_comm.
  - rewrite <- IH. apply filter_ext. intros x.
    destruct (decide (x = a)) as [->|Hne].
    + by rewrite Ha, andb_false_r.
    + by rewrite (bool_decide_eq_true_2 _ Hne).
Qed.

(** So does a function that is injective on the list. *)
Lemma unique_list_map {A B} `{EqDecision A, EqDecision B} (g : A → B) (l : list A) :
  (∀ x y, x ∈ l → y ∈ l → g x = g y → x = y) →
  unique_list (map g l) = map g (unique_list l).
Proof.
  induction l as [|a l IH]; intros Hinj; simpl; [done|]. f_equal.
  rewrite IH.
  2:{ intros x y Hx Hy. apply Hinj; apply elem_of_cons; by right. }
  rewrite filter_map_comm. f_equal. apply filter_ext_in. intros x Hx.
  apply (proj2 (list_elem_of_In _ _)) in Hx.
  apply (proj1 (elem_of_unique_list _ _)) in Hx.
  apply bool_decide_ext. split.
  - intros Hne ->. done.
  - intros Hne Heq. apply Hne, Hinj; [apply elem_of_cons; by right|
                                      apply elem_of_cons; by left|done].
Qed.

Lemma elem_of_flat_map_if {A B C} (P : A → bool) (Q : A → B → bool) (g : A → B → C)
    (xs : list A) (ys : list B) (z : C) :
  z ∈ flat_map (λ a, if P a then map (g a) (List.filter (Q a) ys) else []) xs
  ↔ ∃ a y, a ∈ xs ∧ P a = true ∧ y ∈ ys ∧ Q a y = true ∧ z = g a y.
Proof.
  rewrite list_elem_of_In, in_flat_map. split.
  - intros (a & Ha & Hz). destruct (P a) eqn:HP; [|done].
    apply in_map_iff in Hz as (y & <- & Hy). apply filter_In in Hy as [Hy HQ].
    exists a, y. by rewrite !list_elem_of_In.
  - intros (a & y & Ha & HP & Hy & HQ & ->). exists a.
    split; [by apply list_elem_of_In|]. rewrite HP.
    apply in_map_iff. exists y. split; [done|].
    apply filter_In. split; [by apply list_elem_of_In|done].
Qed.

(** ** Queries and [fetch] *)

#[local] Arguments keyed : simpl never.

Lemma keyed_entity h rc l :
  keyed h rc (RowEntity (PyObj l)) = (col_of (row_cols h l) rc, PyObj l).
Proof.
  unfold keyed, getattr_col, col_of, row_cols.
  destruct (h !! l) as [o|]; [|done]. by destruct (obj_cols o !! rc).
Qed.

Lemma sat_In_readable h l rc vals :
  sat (row_cols h l) (In_ rc vals) = true →
  ∃ c, getattr_col h (PyObj l) (Some rc) = Ok c.
Proof.
  unfold row_cols, getattr_col. simpl. destruct (h !! l) as [o|].
  - destruct (obj_cols o !! rc); [eauto|done].
  - by rewrite lookup_empty.
Qed.

Lemma run_query_filter_ok db h model rc vals kind :
  kind ≠ ManyToManyFetcher →
  Forall (row_ok h rc kind) (run_query db h (QFilter model (In_ rc vals))).
Proof.
  intros Hk. simpl. apply Forall_forall. intros r Hr.
  apply list_elem_of_In, in_map_iff in Hr as (l & <- & Hl).
  apply filter_In in Hl as [_ Hsat].
  apply sat_In_readable in Hsat. by destruct kind.
Qed.

Lemma run_query_join_ok db h model secondary on rc vals :
  Forall (row_ok h rc ManyToManyFetcher)
    (run_query db h (QJoin model secondary on rc vals)).
Proof.
  cbn [run_query]. apply Forall_forall. intros r Hr.
  apply (proj1 (elem_of_unique_list _ _)) in Hr.
  apply (elem_of_flat_map_if (λ a, sat a (In_ rc vals))
           (λ a l, join_on (row_cols h l) a on)
           (λ a l, RowPair (PyObj l) (col_of a rc))) in Hr
    as (a & l & _ & _ & _ & _ & ->).
  done.
Qed.

Lemma fetch_row_spec db h rc f r :
  remote_column_name db h f = Ok (Some rc) →
  (f_kind f ≠ ManyToOneFetcher → values_are_lists (parent_dict f)) →
  row_ok h rc (f_kind f) r →
  fetch_row db h f r =
  Ok (set_parent_dict f (add_row (f_kind f) (parent_dict f) (keyed h rc r))).
Proof.
  intros Hrc Hd Hr. unfold fetch_row, row_ok, append_entity in *.
  assert (Happ : ∀ k e, f_kind f ≠ ManyToOneFetcher →
            dd_append f k e =
            Ok (set_parent_dict f
                  (<[k := VList (as_list (default (VList []) (parent_dict f !! k)) ++ [e])]>
                     (parent_dict f)))).
  { intros k e Hk. unfold dd_append, dd_get.
    destruct (parent_dict f !! k) as [v|] eqn:Hv; simpl.
    - destruct (Hd Hk k v Hv) as [l ->]. done.
    - by destruct (f_kind f). }
  destruct (f_kind f) eqn:Hkind, r as [e|e pid]; try done.
  - by rewrite Happ.
  - destruct Hr as [c Hc]. rewrite Hrc, bindR_Ok. cbv beta.
    unfold keyed. by rewrite Hc.
  - destruct Hr as [c Hc]. rewrite Hrc, bindR_Ok. cbv beta.
    unfold keyed. rewrite Hc, bindR_Ok. by rewrite Happ.
Qed.

Lemma foldR_fetch_row db h rc rows : ∀ f,
  remote_column_name db h f = Ok (Some rc) →
  (f_kind f ≠ ManyToOneFetcher → values_are_lists (parent_dict f)) →
  Forall (row_ok h rc (f_kind f)) rows →
  foldR (fetch_row db h) f rows =
  Ok (set_parent_dict f
        (accumulate (f_kind f) (parent_dict f) (map (keyed h rc) rows))).
Proof.
  induction rows as [|r rows IH]; intros f Hrc Hd Hrows.
  - by destruct f.
  - inversion Hrows as [|?? Hr Hrows']; subst. simpl.
    rewrite (fetch_row_spec _ _ rc) by done. rewrite bindR_Ok.
    rewrite IH; [done|done| |done].
    simpl. intros Hk. by apply add_row_lists, Hd.
Qed.

Lemma condition_of_spec db h f rc vals :
  fetchable db h f rc vals → f_kind f ≠ ManyToManyFetcher →
  condition_of db h f = Ok (In_ rc vals).
Proof.
  intros (_ & Hrc & Hvals & Hcol) Hk. unfold condition_of.
  rewrite Hrc, bindR_Ok. simpl.
  destruct (f_kind f); [done| |]; destruct Hcol as [c ->];
    by rewrite !bindR_Ok, Hvals.
Qed.

Lemma related_entities_spec db h f rc vals :
  fetchable db h f rc vals →
  related_entities db h f = Ok (fetch_query f rc vals).
Proof.
  intros Hf. pose proof Hf as (Hs & Hrc & Hvals & Hcol).
  unfold related_entities, fetch_query.
  destruct (f_kind f) eqn:Hk.
  - rewrite Hs, bindR_Ok. destruct Hcol as [sec ->].
    by rewrite Hrc, !bindR_Ok, Hvals.
  - rewrite Hs, bindR_Ok, (condition_of_spec _ _ _ rc vals); [done|done|].
    by rewrite Hk.
  - rewrite Hs, bindR_Ok, (condition_of_spec _ _ _ rc vals); [done|done|].
    by rewrite Hk.
Qed.

Lemma fetch_query_rows_ok db h f rc vals :
  (f_kind f = ManyToManyFetcher → is_Some (rel_secondary (prop f))) →
  Forall (row_ok h rc (f_kind f)) (run_query db h (fetch_query f rc vals)).
Proof.
  intros Hsec. unfold fetch_query. destruct (f_kind f) eqn:Hk.
  - destruct (Hsec eq_refl) as [sec ->]. apply run_query_join_ok.
  - by apply run_query_filter_ok.
  - by apply run_query_filter_ok.
Qed.

(** [fetch] runs one query and adds its rows to [parent_dict]. *)
Lemma fetch_spec db st f rc vals :
  fetchable db (st_heap st) f rc vals →
  (f_kind f ≠ ManyToOneFetcher → values_are_lists (parent_dict f)) →
  fetch db f st =
  (Ok (set_parent_dict f
         (accumulate (f_kind f) (parent_dict f)
            (map (keyed (st_heap st) rc)
               (run_query db (st_heap st) (fetch_query f rc vals))))),
   mkState (st_heap st) (S (st_queries st))).
Proof.
  intros Hf Hd. unfold fetch. munfold. cbv beta iota.
  rewrite (related_entities_spec _ _ _ rc vals) by done.
  unfold iterate. cbv beta iota. simpl st_heap.
  rewrite (foldR_fetch_row _ _ rc); [done| apply Hf | done |].
  apply fetch_query_rows_ok. intros Hk.
  destruct Hf as (_ & _ & _ & Hsec). by rewrite Hk in Hsec.
Qed.

Lemma with_key_filter db h model c rc k :
  with_key k (map (keyed h rc) (run_query db h (QFilter model c))) =
  matching_rows db h model c rc k.
Proof.
  unfold with_key, matching_rows, run_query.
  rewrite map_map.
  rewrite (map_ext _ (λ l, (col_of (row_cols h l) rc, PyObj l)))
    by (intros; apply keyed_entity).
  induction (table db model) as [|l ls IH]; [done|]. simpl.
  destruct (sat (row_cols h l) c); simpl; [|done].
  destruct (bool_decide (col_of (row_cols h l) rc = k)); simpl; by rewrite IH.
Qed.

Lemma with_key_join_row h rc k (a : columns) (ls : list loc) :
  map snd
    (List.filter (λ kr : colval * pyref, bool_decide (kr.1 = k))
       (map (keyed h rc) (map (λ l, RowPair (PyObj l) (col_of a rc)) ls))) =
  if bool_decide (col_of a rc = k) then map PyObj ls else [].
Proof.
  induction ls as [|l ls IH]; cbn [map List.filter].
  - by destruct (bool_decide _).
  - unfold keyed at 1. cbn [fst].
    destruct (bool_decide (col_of a rc = k)); cbn [map snd]; by rewrite IH.
Qed.

(** The rows of a join that a fetcher files under [k]. *)
Lemma with_key_join db h model secondary on rc vals k :
  with_key k (map (keyed h rc) (run_query db h (QJoin model secondary on rc vals))) =
  linked_rows db h model secondary on rc (λ a, sat a (In_ rc vals)) k.
Proof.
  unfold with_key, linked_rows. cbn [run_query].
  set (tbl := table db model).
  set (rows0 := flat_map _ (assoc_rows db secondary)).
  assert (Hpairs : ∀ r, r ∈ rows0 → ∃ e pid, r = RowPair e pid).
  { intros r Hr.
    apply (elem_of_flat_map_if (λ a, sat a (In_ rc vals))
             (λ a l, join_on (row_cols h l) a on)
             (λ a l, RowPair (PyObj l) (col_of a rc))) in Hr
      as (a & l & _ & _ & _ & _ & ->). eauto. }
  rewrite <- (unique_list_map (keyed h rc)).
  2:{ intros x y Hx Hy. destruct (Hpairs x Hx) as (e1 & k1 & ->).
      destruct (Hpairs y Hy) as (e2 & k2 & ->). unfold keyed. congruence. }
  rewrite unique_list_filter.
  rewrite <- (unique_list_map snd).
  2:{ intros [k1 e1] [k2 e2] [_ H1]%elem_of_filter_bool [_ H2]%elem_of_filter_bool.
      apply bool_decide_eq_true in H1, H2. simpl in *. congruence. }
  f_equal. unfold rows0. clear Hpairs rows0.
  induction (assoc_rows db secondary) as [|a rows IH]; [done|].
  cbn [flat_map]. rewrite map_app, List.filter_app, map_app, IH. f_equal.
  destruct (sat a (In_ rc vals)); cbn [andb].
  - apply with_key_join_row.
  - done.
Qed.

(** What [linked_rows] holds: no entity twice, and the rows of the
    related table that some retained association row with key [k] is
    joined to. *)
Lemma NoDup_linked_rows db h model secondary on rc keep k :
  NoDup (linked_rows db h model secondary on rc keep k).
Proof. apply NoDup_unique_list. Qed.

Lemma elem_of_linked_rows db h model secondary on rc keep k e :
  e ∈ linked_rows db h model secondary on rc keep k
  ↔ ∃ l a, e = PyObj l ∧ l ∈ table db model ∧ a ∈ assoc_rows db secondary
           ∧ join_on (row_cols h l) a on = true ∧ keep a = true ∧ col_of a rc = k.
Proof.
  unfold linked_rows. rewrite elem_of_unique_list.
  rewrite (elem_of_flat_map_if (λ a, keep a && bool_decide (col_of a rc = k))
             (λ a l, join_on (row_cols h l) a on) (λ _ l, PyObj l)).
  split.
  - intros (a & l & Ha & HP & Hl & HQ & ->).
    apply andb_true_iff in HP as [Hkeep Hk]. apply bool_decide_eq_true in Hk.
    by exists l, a.
  - intros (l & a & -> & Hl & Ha & HQ & Hkeep & Hk). exists a, l.
    rewrite Hkeep. by rewrite (bool_decide_eq_true_2 _ Hk).
Qed.

Lemma links_nonempty db h secondary on rc vals k l :
  links db h secondary on rc vals k l ≠ []
  ↔ ∃ a, a ∈ assoc_rows db secondary ∧ join_on (row_cols h l) a on = true
         ∧ sat a (In_ rc vals) = true ∧ col_of a rc = k.
Proof.
  unfold links. split.
  - intros Hne.
    destruct (List.filter _ (assoc_rows db secondary)) as [|a rest] eqn:Hf; [done|].
    assert (Ha : a ∈ a :: rest) by (apply elem_of_cons; by left).
    rewrite <- Hf in Ha. apply elem_of_filter_bool in Ha as [Ha HP].
    apply andb_true_iff in HP as [HP Hk]. apply andb_true_iff in HP as [Hj Hs].
    apply bool_decide_eq_true in Hk. by exists a.
  - intros (a & Ha & Hj & Hs & Hk) Hnil.
    assert (Hin : a ∈ List.filter
                    (λ a, join_on (row_cols h l) a on && sat a (In_ rc vals)
                          && bool_decide (col_of a rc = k))
                    (assoc_rows db secondary)).
    { apply elem_of_filter_bool. split; [done|].
      by rewrite Hj, Hs, (bool_decide_eq_true_2 _ Hk). }
    rewrite Hnil in Hin. by apply elem_of_nil in Hin.
Qed.

(** The entities a many-to-many fetcher files under [k]: each once, and
    exactly those some association row of the batch links to [k]. *)
Lemma linked_rows_links db h model secondary on rc vals k e :
  e ∈ linked_rows db h model secondary on rc (λ a, sat a (In_ rc vals)) k
  ↔ ∃ l, e = PyObj l ∧ l ∈ table db model
         ∧ links db h secondary on rc vals k l ≠ [].
Proof.
  rewrite elem_of_linked_rows. split.
  - intros (l & a & -> & Hl & Ha & Hj & Hs & Hk). exists l.
    split; [done|]. split; [done|]. apply links_nonempty. by exists a.
  - intros (l & -> & Hl & Hne). apply links_nonempty in Hne as (a & Ha & Hj & Hs & Hk).
    by exists l, a.
Qed.

Lemma path_fetcher_fetchable db h p rc vals :
  path_session h p = Ok tt →
  remote_column_name db h (path_fetcher p) = Ok (Some rc) →
  local_values_list h (path_fetcher p) = Ok vals →
  (fetcher_class p ≠ ManyToManyFetcher →
   ∃ c, class_getattr db (path_model p) rc = Ok (ColumnProperty c)) →
  fetchable db h (path_fetcher p) rc vals.
Proof.
  intros Hs Hrc Hvals Hcol. repeat split; try done. simpl.
  unfold fetcher_class in *. unfold prop. simpl.
  destruct (rel_secondary (path_property p)); [by eexists|].
  destruct (rel_direction (path_property p)); by apply Hcol.
Qed.

(** ** What [fetch] leaves in [parent_dict] *)

(** A many-to-many [fetch]: one query, and under every key the
    entities the join links to it. *)
Lemma fetch_many_to_many db st p secondary rc vals :
  rel_secondary (path_property p) = Some secondary →
  fetchable db (st_heap st) (path_fetcher p) rc vals →
  ∃ f', fetch db (path_fetcher p) st
          = (Ok f', mkState (st_heap st) (S (st_queries st)))
    ∧ ∀ k, dd_get f' k =
           VList (linked_rows db (st_heap st) (path_model p) secondary
                    (rel_secondaryjoin (path_property p)) rc
                    (λ a, sat a (In_ rc vals)) k).
Proof.
  intros Hsec Hf. eexists. split.
  { apply (fetch_spec _ _ _ rc vals); [done|]. intros _. apply values_are_lists_empty. }
  intros k. unfold dd_get. cbn [f_kind parent_dict set_parent_dict path_fetcher].
  rewrite accumulate_group.
  unfold fetch_query, prop. cbn [f_kind f_path path_fetcher].
  unfold fetcher_class. rewrite Hsec. cbn [group_of].
  by rewrite with_key_join.
Qed.

(** C1 (amended): for a path whose first entity belongs to the session,
    whose remote column is [rc] and whose entities read [vals] in the
    local column.  Without a secondary table [condition] is
    [rc IN vals], [fetch] runs one query and the slot of every key [k]
    holds the rows of the related table that satisfy the condition and
    have [k] in [rc], in table order -- all of them for a one-to-many
    fetcher, the last one for a many-to-one fetcher.  With a secondary
    table the same membership test is applied by [related_entities] to
    column [rc] of the association table, and the slot of [k] is a
    list without repetition of exactly the related entities that an
    association row passing the test links to [k]. *)
Theorem fetch_groups_by_remote_column (db : database) (st : state) (p : path)
    (rc : string) (vals : list colval) :
  path_session (st_heap st) p = Ok tt →
  remote_column_name db (st_heap st) (path_fetcher p) = Ok (Some rc) →
  local_values_list (st_heap st) (path_fetcher p) = Ok vals →
  (fetcher_class p ≠ ManyToManyFetcher →
   ∃ c, class_getattr db (path_model p) rc = Ok (ColumnProperty c)) →
  ∃ f', fetch db (path_fetcher p) st
          = (Ok f', mkState (st_heap st) (S (st_queries st)))
    ∧ match rel_secondary (path_property p) with
      | None =>
          condition_of db (st_heap st) (path_fetcher p) = Ok (In_ rc vals)
          ∧ ∀ k, dd_get f' k =
                 group_of (fetcher_class p)
                   (matching_rows db (st_heap st) (path_model p) (In_ rc vals) rc k)
      | Some secondary =>
          related_entities db (st_heap st) (path_fetcher p)
            = Ok (QJoin (path_model p) secondary
                    (rel_secondaryjoin (path_property p)) rc vals)
          ∧ ∀ k, ∃ es,
              dd_get f' k = VList es
              ∧ NoDup es
              ∧ ∀ e, e ∈ es ↔
                     ∃ l, e = PyObj l ∧ l ∈ table db (path_model p)
                          ∧ links db (st_heap st) secondary
                              (rel_secondaryjoin (path_property p)) rc vals k l ≠ []
      end.
Proof.
  intros Hs Hrc Hvals Hcol.
  pose proof (path_fetcher_fetchable _ _ _ _ _ Hs Hrc Hvals Hcol) as Hf.
  destruct (rel_secondary (path_property p)) as [secondary|] eqn:Hsec.
  - destruct (fetch_many_to_many db st p secondary rc vals Hsec Hf)
      as (f' & Hfetch & Hget).
    exists f'. split; [exact Hfetch|]. split.
    { rewrite (related_entities_spec _ _ _ rc vals) by done.
      unfold fetch_query, prop. simpl. unfold fetcher_class. by rewrite Hsec. }
    intros k. eexists. split; [apply Hget|]. split; [apply NoDup_linked_rows|].
    intros e. apply linked_rows_links.
  - eexists. split.
    { apply (fetch_spec _ _ _ rc vals); [done|]. intros _.
      apply values_are_lists_empty. }
    unfold dd_get. cbn [f_kind parent_dict set_parent_dict path_fetcher].
    assert (Hk : fetcher_class p ≠ ManyToManyFetcher).
    { unfold fetcher_class. rewrite Hsec. by destruct (rel_direction _). }
    split; [by apply condition_of_spec|].
    intros k. rewrite accumulate_group.
    replace (fetch_query (path_fetcher p) rc vals)
      with (QFilter (path_model p) (In_ rc vals)).
    + by rewrite with_key_filter.
    + unfold fetch_query, prop. cbn [f_kind f_path path_fetcher].
      destruct (fetcher_class p); [by rewrite Hsec|done|done].
Qed.

Lemma fetch_groups_by_remote_column_witness :
  ∃ f', fetch Sample.db0 (path_fetcher Sample.p_phones) Sample.st0
          = (Ok f', mkState Sample.h0 1)
    ∧ condition_of Sample.db0 Sample.h0 (path_fetcher Sample.p_phones)
        = Ok (In_ "user_id" [Some 1%Z; Some 2%Z])
    ∧ ∀ k, dd_get f' k =
           group_of OneToManyFetcher
             (matching_rows Sample.db0 Sample.h0 "Phone"
                (In_ "user_id" [Some 1%Z; Some 2%Z]) "user_id" k).
Proof.
  destruct (fetch_groups_by_remote_column Sample.db0 Sample.st0 Sample.p_phones
              "user_id" [Some 1%Z; Some 2%Z]) as (f' & Hfetch & Hcond & Hgroup).
  - reflexivity.
  - reflexivity.
  - reflexivity.
  - intros _. exists Sample.c_user_id. reflexivity.
  - exists f'. split; [exact Hfetch|]. split; [exact Hcond|exact Hgroup].
Defined.

(** C1 as stated fails on a many-to-many path, whose [condition]
    raises while [fetch] groups through the association table, and on
    a many-to-one path with two related rows under one key, of which
    the slot keeps the last. *)
Lemma fetch_groups_by_remote_column_counterexample :
  (parse Sample.db0 Sample.h0 [PyObj Sample.u1; PyObj Sample.u2] (PStr "groups") false
     = Ok Sample.p_groups
   ∧ condition_of Sample.db0 Sample.h0 (path_fetcher Sample.p_groups)
     = Raise AttributeError
   ∧ ∃ f', fetch Sample.db0 (path_fetcher Sample.p_groups) Sample.st0
           = (Ok f', mkState Sample.h0 1)
       ∧ dd_get f' (Some 1%Z) = VList [PyObj Sample.g1])
  ∧ (parse Sample.db0 Sample.h0 [PyObj Sample.p1] (PStr "same_user_phone") false
     = Ok Sample.p_same_user_phone
   ∧ condition_of Sample.db0 Sample.h0 (path_fetcher Sample.p_same_user_phone)
     = Ok (In_ "user_id" [Some 1%Z])
   ∧ matching_rows Sample.db0 Sample.h0 "Phone" (In_ "user_id" [Some 1%Z])
       "user_id" (Some 1%Z) = [PyObj Sample.p1; PyObj Sample.p2]
   ∧ ∃ f', fetch Sample.db0 (path_fetcher Sample.p_same_user_phone) Sample.st0
           = (Ok f', mkState Sample.h0 1)
       ∧ dd_get f' (Some 1%Z) = VOne (PyObj Sample.p2)).
Proof.
  split.
  - split; [reflexivity|]. split; [reflexivity|].
    eexists. split; [vm_compute; reflexivity|]. vm_compute. reflexivity.
  - split; [reflexivity|]. split; [reflexivity|]. split; [reflexivity|].
    eexists. split; [vm_compute; reflexivity|]. vm_compute. reflexivity.
Qed.

Lemma count_occ_NoDup (es : list pyref) (e : pyref) :
  NoDup es →
  count_occ pyref_eq_dec es e = if bool_decide (e ∈ es) then 1%nat else 0%nat.
Proof.
  intros Hnd. destruct (decide (e ∈ es)) as [Hin|Hnin].
  - rewrite (bool_decide_eq_true_2 _ Hin).
    apply NoDup_ListNoDup in Hnd.
    apply (proj1 (NoDup_count_occ' pyref_eq_dec es) Hnd).
    by apply list_elem_of_In.
  - rewrite (bool_decide_eq_false_2 _ Hnin).
    apply count_occ_not_In. by rewrite <- list_elem_of_In.
Qed.

(** C8 (amended): a many-to-many [fetch] runs one query, and the list
    it keeps under the parent key [k] holds a related entity once when
    at least one association row of the batch links it to [k], however
    many such rows there are: the equal rows of the join are yielded
    once.  Nothing else is in the list. *)
Theorem many_to_many_once_per_pair (db : database) (st : state) (p : path)
    (secondary rc : string) (vals : list colval) :
  rel_secondary (path_property p) = Some secondary →
  path_session (st_heap st) p = Ok tt →
  remote_column_name db (st_heap st) (path_fetcher p) = Ok (Some rc) →
  local_values_list (st_heap st) (path_fetcher p) = Ok vals →
  ∃ f', fetch db (path_fetcher p) st
          = (Ok f', mkState (st_heap st) (S (st_queries st)))
    ∧ (∀ k l, l ∈ table db (path_model p) →
         count_occ pyref_eq_dec (as_list (dd_get f' k)) (PyObj l)
         = Nat.min 1 (length (links db (st_heap st) secondary
                                (rel_secondaryjoin (path_property p)) rc vals k l)))
    ∧ (∀ k e, e ∈ as_list (dd_get f' k) →
         ∃ l, e = PyObj l ∧ l ∈ table db (path_model p)
              ∧ links db (st_heap st) secondary
                  (rel_secondaryjoin (path_property p)) rc vals k l ≠ []).
Proof.
  intros Hsec Hs Hrc Hvals.
  assert (Hk : fetcher_class p = ManyToManyFetcher).
  { unfold fetcher_class. by rewrite Hsec. }
  assert (Hf : fetchable db (st_heap st) (path_fetcher p) rc vals).
  { apply path_fetcher_fetchable; try done; by rewrite Hk. }
  destruct (fetch_many_to_many db st p secondary rc vals Hsec Hf)
    as (f' & Hfetch & Hget).
  exists f'. split; [exact Hfetch|]. split.
  - intros k l Hl. rewrite Hget. cbn [as_list].
    rewrite count_occ_NoDup by apply NoDup_linked_rows.
    destruct (links db (st_heap st) secondary (rel_secondaryjoin (path_property p))
                rc vals k l) as [|a rest] eqn:Hlinks.
    + rewrite bool_decide_eq_false_2; [done|].
      intros (l' & [= <-] & _ & Hne)%linked_rows_links. by rewrite Hlinks in Hne.
    + rewrite bool_decide_eq_true_2; [done|].
      apply linked_rows_links. exists l. split; [done|]. split; [done|].
      by rewrite Hlinks.
  - intros k e. rewrite Hget. cbn [as_list]. apply linked_rows_links.
Qed.

Lemma many_to_many_once_per_pair_witness :
  ∃ f', fetch Sample.db0 (path_fetcher Sample.p_groups) Sample.st0
          = (Ok f', mkState Sample.h0 1)
    ∧ count_occ pyref_eq_dec (as_list (dd_get f' (Some 1%Z))) (PyObj Sample.g1) = 1%nat.
Proof.
  destruct (many_to_many_once_per_pair Sample.db0 Sample.st0 Sample.p_groups
              "user_group" "user_id" [Some 1%Z; Some 2%Z])
    as (f' & Hfetch & Hcount & _).
  - reflexivity.
  - reflexivity.
  - reflexivity.
  - reflexivity.
  - exists f'. split; [exact Hfetch|].
    rewrite (Hcount (Some 1%Z) Sample.g1); [reflexivity|].
    apply (bool_decide_unpack _). vm_compute. reflexivity.
Defined.

(** C8 as stated fails: two association rows link the group [g1] to
    the user key [1], and the list kept under that key holds [g1]
    once. *)
Lemma many_to_many_once_per_link_fails :
  ∃ f', fetch Sample.db0 (path_fetcher Sample.p_groups) Sample.st0
          = (Ok f', mkState Sample.h0 1)
    ∧ length (links Sample.db0 Sample.h0 "user_group" ("id", "group_id") "user_id"
                [Some 1%Z; Some 2%Z] (Some 1%Z) Sample.g1) = 2%nat
    ∧ dd_get f' (Some 1%Z) = VList [PyObj Sample.g1]
    ∧ count_occ pyref_eq_dec (as_list (dd_get f' (Some 1%Z))) (PyObj Sample.g1) = 1%nat.
Proof.
  eexists. split; [vm_compute; reflexivity|].
  split; [vm_compute; reflexivity|]. split; vm_compute; reflexivity.
Qed.

(** ** Heaps that differ in loaded relationships only *)

Lemma same_rows_refl h : same_rows h h.
Proof. by intros l. Qed.

Lemma same_rows_trans h1 h2 h3 :
  same_rows h1 h2 → same_rows h2 h3 → same_rows h1 h3.
Proof.
  intros H12 H23 l. destruct (H12 l) as [-> ->]. apply H23.
Qed.

Lemma same_rows_sym h1 h2 : same_rows h1 h2 → same_rows h2 h1.
Proof. intros H l. by destruct (H l) as [-> ->]. Qed.

Lemma same_rows_row_cols h h' l : same_rows h h' → row_cols h l = row_cols h' l.
Proof.
  intros H. destruct (H l) as [_ Hc]. unfold row_cols.
  destruct (h !! l), (h' !! l); simpl in Hc; congruence.
Qed.

Lemma same_rows_getattr_col h h' e name :
  same_rows h h' → getattr_col h e name = getattr_col h' e name.
Proof.
  intros H. destruct name as [n|], e as [|l]; try done. simpl.
  destruct (H l) as [_ Hc].
  destruct (h !! l), (h' !! l); simpl in Hc; try done. by injection Hc as ->.
Qed.

Lemma same_rows_class_of h h' e : same_rows h h' → class_of h e = class_of h' e.
Proof.
  intros H. destruct e as [|l]; [done|]. simpl. destruct (H l) as [Hc _].
  destruct (h !! l), (h' !! l); simpl in Hc; try done. by injection Hc as ->.
Qed.

Lemma same_rows_path_session h h' p :
  same_rows h h' → path_session h p = path_session h' p.
Proof.
  intros H. unfold path_session. destruct (index0 (path_entities p)) as [[|l]|]; try done.
  simpl. destruct (H l) as [Hc _].
  by destruct (h !! l), (h' !! l).
Qed.

Lemma same_rows_accepts db h h' key e :
  same_rows h h' → accepts db h key e = accepts db h' key e.
Proof.
  intros H. destruct e as [|l]; [done|]. simpl. destruct (H l) as [Hc _].
  destruct (h !! l), (h' !! l); simpl in Hc; try done. by injection Hc as ->.
Qed.

Lemma mapR_ext {A B} (g g' : A → result B) l :
  (∀ x, g x = g' x) → mapR g l = mapR g' l.
Proof. intros H. induction l as [|x l IH]; simpl; [done|]. by rewrite H, IH. Qed.

Lemma mapR_Ok_elem {A B} (g : A → result B) l ys x :
  mapR g l = Ok ys → x ∈ l → ∃ y, g x = Ok y.
Proof.
  revert ys. induction l as [|x' l IH]; intros ys Hm Hx; [by apply elem_of_nil in Hx|].
  simpl in Hm. destruct (g x') as [y'|] eqn:Hg; [|done]. rewrite bindR_Ok in Hm.
  destruct (mapR g l) as [ys'|] eqn:Hl; [|done].
  apply elem_of_cons in Hx as [->|Hx]; eauto.
Qed.

Lemma same_rows_local_values h h' f e :
  same_rows h h' → local_values h f e = local_values h' f e.
Proof.
  intros H. unfold local_values.
  destruct (index0 _); [|done]. rewrite !bindR_Ok. by apply same_rows_getattr_col.
Qed.

Lemma same_rows_local_values_list h h' f :
  same_rows h h' → local_values_list h f = local_values_list h' f.
Proof. intros H. apply mapR_ext. intros e. by apply same_rows_local_values. Qed.

Lemma same_rows_remote_column_name db h h' f :
  same_rows h h' → remote_column_name db h f = remote_column_name db h' f.
Proof.
  intros H. unfold remote_column_name, parent_table, parent_model.
  destruct (f_kind f); try done.
  destruct (index0 (path_entities (f_path f))) as [e|]; [|done].
  rewrite !bindR_Ok. by rewrite (same_rows_class_of h h').
Qed.

Lemma same_rows_fetchable db h h' f rc vals :
  same_rows h h' → fetchable db h f rc vals → fetchable db h' f rc vals.
Proof.
  intros H (Hs & Hrc & Hvals & Hcol). repeat split; [| | |done].
  - by rewrite <- (same_rows_path_session h h').
  - by rewrite <- (same_rows_remote_column_name db h h').
  - by rewrite <- (same_rows_local_values_list h h').
Qed.

Lemma same_rows_run_query db h h' q :
  same_rows h h' → run_query db h q = run_query db h' q.
Proof.
  intros H. destruct q as [model c|model secondary on col vals]; simpl.
  - f_equal. apply filter_ext. intros l. by rewrite (same_rows_row_cols h h').
  - f_equal. apply flat_map_ext. intros a. destruct (_ : bool); [|done].
    f_equal. apply filter_ext. intros l. by rewrite (same_rows_row_cols h h').
Qed.

(** ** [set_committed_value] and the first loop of [populate] *)

Lemma frame_refl key s : frame key s s.
Proof. split; [apply same_rows_refl|done]. Qed.

Lemma frame_trans key s1 s2 s3 : frame key s1 s2 → frame key s2 s3 → frame key s1 s3.
Proof.
  intros [H12 R12] [H23 R23]. split; [by eapply same_rows_trans|].
  intros l n Hn. by rewrite R23, R12.
Qed.

Lemma preserves_bind {A B} (R : state → state → Prop) (m : M A) (k : A → M B) :
  (∀ s1 s2 s3, R s1 s2 → R s2 s3 → R s1 s3) →
  preserves R m → (∀ a, preserves R (k a)) → preserves R (m ≫= k).
Proof.
  intros Htrans Hm Hk s. unfold mbind, M_bind.
  specialize (Hm s). destruct (m s) as [[a|e] s']; simpl in *; [|done].
  eapply Htrans; [exact Hm|apply Hk].
Qed.

Lemma preserves_forM {A} (R : state → state → Prop) (g : A → M unit) l :
  (∀ s, R s s) → (∀ s1 s2 s3, R s1 s2 → R s2 s3 → R s1 s3) →
  (∀ x, preserves R (g x)) → preserves R (forM g l).
Proof.
  intros Hrefl Htrans Hg. induction l as [|x l IH]; simpl.
  - intros s. apply Hrefl.
  - apply preserves_bind; [done|apply Hg|]. intros _. apply IH.
Qed.

Lemma preserves_liftR {A} (R : state → state → Prop) (r : result A) :
  (∀ s, R s s) → preserves R (liftR r).
Proof. intros Hrefl s. apply Hrefl. Qed.

Lemma preserves_get_heap (R : state → state → Prop) :
  (∀ s, R s s) → preserves R get_heap.
Proof. intros Hrefl s. apply Hrefl. Qed.

Lemma preserves_iterate key db q : preserves (frame key) (iterate db q).
Proof. intros s. simpl. split; [apply same_rows_refl|done]. Qed.

Lemma set_committed_value_frame db e key v :
  preserves (frame key) (set_committed_value db e key v).
Proof.
  intros s. unfold set_committed_value.
  destruct e as [|l]; [apply frame_refl|].
  destruct (st_heap s !! l) as [o|] eqn:Ho; [|apply frame_refl].
  destruct key as [k|]; [|apply frame_refl].
  destruct (has_relationship db (obj_class o) k); [|apply frame_refl].
  split; simpl.
  - intros l'. destruct (decide (l = l')) as [<-|Hne].
    + by rewrite lookup_insert_eq, Ho.
    + by rewrite lookup_insert_ne.
  - intros l' n Hn. unfold rel_at. destruct (decide (l = l')) as [<-|Hne].
    + rewrite lookup_insert_eq, Ho. simpl.
      rewrite lookup_insert_ne; [done|congruence].
    + by rewrite lookup_insert_ne.
Qed.

Lemma set_committed_value_ok db e key v s :
  accepts db (st_heap s) key e = true →
  ∃ l s', e = PyObj l
    ∧ set_committed_value db e (Some key) v s = (Ok tt, s')
    ∧ st_queries s' = st_queries s
    ∧ rel_at (st_heap s') l key = Some v
    ∧ ∀ l', l' ≠ l → rel_at (st_heap s') l' key = rel_at (st_heap s) l' key.
Proof.
  unfold accepts, set_committed_value. destruct e as [|l]; [done|].
  destruct (st_heap s !! l) as [o|] eqn:Ho; [|done]. intros ->.
  eexists l, _. split; [done|]. split; [done|]. split; [done|]. simpl. split.
  - unfold rel_at. rewrite lookup_insert_eq. simpl. by rewrite lookup_insert_eq.
  - intros l' Hne. unfold rel_at. by rewrite lookup_insert_ne.
Qed.

(** The first loop of [populate]: every entity of the path receives
    the slot of its local value, and nothing else changes. *)
Lemma populate_entities_spec db f ents : ∀ s,
  Forall (λ e, accepts db (st_heap s) (rel_key (prop f)) e = true
               ∧ ∃ k, local_values (st_heap s) f e = Ok k) ents →
  ∃ s', forM (populate_entity db f) ents s = (Ok tt, s')
    ∧ st_queries s' = st_queries s
    ∧ frame (Some (rel_key (prop f))) s s'
    ∧ (∀ l, PyObj l ∉ ents →
         rel_at (st_heap s') l (rel_key (prop f))
         = rel_at (st_heap s) l (rel_key (prop f)))
    ∧ (∀ l, PyObj l ∈ ents →
         ∃ k, local_values (st_heap s) f (PyObj l) = Ok k
              ∧ rel_at (st_heap s') l (rel_key (prop f)) = Some (dd_get f k)).
Proof.
  induction ents as [|e ents IH]; intros s Hents.
  - exists s. split; [done|]. split; [done|]. split; [apply frame_refl|].
    split; [done|]. by intros l ?%elem_of_nil.
  - inversion Hents as [|?? [Hacc [k Hk]] Hents']; subst.
    destruct (set_committed_value_ok db e (rel_key (prop f)) (dd_get f k) s Hacc)
      as (l0 & s1 & -> & Hset & Hq1 & Hnew & Hold).
    pose proof (set_committed_value_frame db (PyObj l0) (Some (rel_key (prop f)))
                  (dd_get f k) s) as Hfr1.
    rewrite Hset in Hfr1. simpl in Hfr1.
    destruct (IH s1) as (s' & Hrun & Hq & Hfr & Hout & Hin).
    { eapply Forall_impl; [exact Hents'|]. intros e' [Hacc' [k' Hk']]. split.
      - by rewrite <- (same_rows_accepts db (st_heap s) _ _ _ (proj1 Hfr1)).
      - exists k'. by rewrite <- (same_rows_local_values (st_heap s) _ _ _ (proj1 Hfr1)). }
    exists s'. split.
    { simpl. unfold populate_entity. munfold. cbv beta iota.
      rewrite Hk. cbv beta iota. rewrite Hset. exact Hrun. }
    split; [congruence|]. split; [by eapply frame_trans|]. split.
    + intros l Hl. apply not_elem_of_cons in Hl as [Hne Hl].
      rewrite (Hout l Hl). apply Hold. congruence.
    + intros l Hl. destruct (decide (PyObj l ∈ ents)) as [Hl'|Hl'].
      * destruct (Hin l Hl') as (k' & Hk' & Hrel). exists k'. split; [|done].
        by rewrite (same_rows_local_values (st_heap s) _ _ _ (proj1 Hfr1)).
      * apply elem_of_cons in Hl as [[= ->]|Hl]; [|done].
        exists k. split; [done|]. by rewrite (Hout l0 Hl').
Qed.

Lemma bindM_Ok {A B} (m : M A) (k : A → M B) s a s' :
  m s = (Ok a, s') → (m ≫= k) s = k a s'.
Proof. intros H. unfold mbind, M_bind. by rewrite H. Qed.

Lemma bindM_Raise {A B} (m : M A) (k : A → M B) s e s' :
  m s = (Raise e, s') → (m ≫= k) s = (Raise e, s').
Proof. intros H. unfold mbind, M_bind. by rewrite H. Qed.

(** [populate_backrefs] writes the inverse attribute only. *)
Lemma populate_backrefs_frame db f q :
  preserves (frame (rel_back_populates (prop f))) (populate_backrefs db f q).
Proof.
  set (R := frame (rel_back_populates (prop f))).
  assert (Hrefl : ∀ s, R s s) by apply frame_refl.
  assert (Htrans : ∀ s1 s2 s3, R s1 s2 → R s2 s3 → R s1 s3) by apply frame_trans.
  unfold populate_backrefs.
  repeat (first [apply preserves_bind; [exact Htrans| |intros ?]
                |apply preserves_iterate
                |apply preserves_get_heap; exact Hrefl
                |apply preserves_liftR; exact Hrefl]).
  apply preserves_forM; [done|done|]. intros r. unfold backref_assign.
  apply preserves_bind; [done|by apply preserves_liftR|]. intros [e pid].
  apply preserves_bind; [done|by apply preserves_get_heap|]. intros h.
  apply preserves_bind; [done|by apply preserves_liftR|]. intros k.
  apply preserves_bind; [done|by apply preserves_liftR|]. intros l.
  apply set_committed_value_frame.
Qed.

Lemma populate_tail_frame db f :
  preserves (frame (rel_back_populates (prop f)))
    (if path_populate_backrefs (f_path f)
     then h ← get_heap;
          q ← liftR (related_entities db h f);
          populate_backrefs db f q
     else mret tt).
Proof.
  destruct (path_populate_backrefs (f_path f)).
  - apply preserves_bind; [apply frame_trans|apply preserves_get_heap, frame_refl|].
    intros h. apply preserves_bind; [apply frame_trans|apply preserves_liftR, frame_refl|].
    intros q. apply populate_backrefs_frame.
  - intros s. apply frame_refl.
Qed.

Lemma group_of_nil kind : group_of kind [] = dd_default kind.
Proof. by destruct kind. Qed.

Lemma accepts_is_obj db h key e : accepts db h key e = true → ∃ l, e = PyObj l.
Proof. destruct e; [done|eauto]. Qed.

(** ** [fetch] followed by [populate] *)

(** C3: after [fetch] and [populate] every entity of the path has its
    relationship attribute loaded with the slot [parent_dict] holds for
    its local value; when no fetched row carries that value the
    attribute is the empty list for the to-many fetchers and [None] for
    the many-to-one fetcher.  (The entities are instances whose class
    has the relationship, and an inverse that backref population writes
    is another attribute than the relationship itself.) *)
Theorem populate_sets_every_entity (db : database) (st : state) (p : path)
    (rc : string) (vals : list colval) :
  path_session (st_heap st) p = Ok tt →
  remote_column_name db (st_heap st) (path_fetcher p) = Ok (Some rc) →
  local_values_list (st_heap st) (path_fetcher p) = Ok vals →
  (fetcher_class p ≠ ManyToManyFetcher →
   ∃ c, class_getattr db (path_model p) rc = Ok (ColumnProperty c)) →
  Forall (λ e, accepts db (st_heap st) (rel_key (path_property p)) e = true)
    (path_entities p) →
  (path_populate_backrefs p = true →
   rel_back_populates (path_property p) ≠ Some (rel_key (path_property p))) →
  ∃ f' st1, fetch db (path_fetcher p) st = (Ok f', st1)
    ∧ (path_populate_backrefs p = false → (populate db f' st1).1 = Ok tt)
    ∧ ∀ e, e ∈ path_entities p →
        ∃ l k, e = PyObj l
          ∧ local_values (st_heap st) (path_fetcher p) e = Ok k
          ∧ rel_at (st_heap (populate db f' st1).2) l (rel_key (path_property p))
            = Some (dd_get f' k)
          ∧ (with_key k (fetched_rows db (st_heap st) (path_fetcher p) rc vals) = [] →
             dd_get f' k = match fetcher_class p with
                           | ManyToOneFetcher => VOne PyNone
                           | _ => VList []
                           end).
Proof.
  intros Hs Hrc Hvals Hcol Hacc Hbp.
  pose proof (path_fetcher_fetchable _ _ _ _ _ Hs Hrc Hvals Hcol) as Hf.
  set (f := path_fetcher p) in *.
  set (f' := set_parent_dict f
               (accumulate (f_kind f) (parent_dict f)
                  (map (keyed (st_heap st) rc)
                     (run_query db (st_heap st) (fetch_query f rc vals))))).
  set (st1 := mkState (st_heap st) (S (st_queries st))).
  exists f', st1.
  assert (Hfetch : fetch db f st = (Ok f', st1)).
  { apply (fetch_spec _ _ _ rc vals); [done|]. intros _. apply values_are_lists_empty. }
  split; [done|].
  destruct (populate_entities_spec db f' (path_entities p) st1)
    as (s' & Hrun & Hq & Hfr & Hout & Hin).
  { apply Forall_forall. intros e He. split.
    - by apply (proj1 (Forall_forall _ _) Hacc).
    - apply (mapR_Ok_elem _ _ _ e Hvals He). }
  assert (Htail := populate_tail_frame db f' s').
  assert (Hpop : populate db f' st1 =
            (if path_populate_backrefs (f_path f')
             then h ← get_heap;
                  q ← liftR (related_entities db h f');
                  populate_backrefs db f' q
             else mret tt) s').
  { unfold populate. by rewrite (bindM_Ok _ _ _ _ _ Hrun). }
  split.
  { intros Hpb. rewrite Hpop. change (f_path f') with p. by rewrite Hpb. }
  intros e He.
  destruct (accepts_is_obj _ _ _ _ (proj1 (Forall_forall _ _) Hacc e He)) as [l ->].
  destruct (Hin l He) as (k & Hk & Hrel).
  exists l, k. split; [done|]. split; [exact Hk|]. split.
  - rewrite Hpop. destruct Htail as [_ Hrels].
    destruct (path_populate_backrefs p) eqn:Hpb.
    + change (f_path f') with p in *. rewrite Hpb in *.
      rewrite Hrels; [exact Hrel|]. by apply Hbp.
    + change (f_path f') with p in *. rewrite Hpb. exact Hrel.
  - intros Hnone. unfold dd_get, f'.
    cbn [f_kind parent_dict set_parent_dict f path_fetcher].
    rewrite accumulate_group. unfold fetched_rows in Hnone. rewrite Hnone.
    by destruct (fetcher_class p).
Qed.

Lemma populate_sets_every_entity_witness :
  ∃ f' st1, fetch Sample.db0 (path_fetcher Sample.p_user) Sample.st0 = (Ok f', st1)
    ∧ rel_at (st_heap (populate Sample.db0 f' st1).2) Sample.p3 "user"
      = Some (VOne PyNone).
Proof.
  destruct (populate_sets_every_entity Sample.db0 Sample.st0 Sample.p_user
              "id" [Some 1%Z; None])
    as (f' & st1 & Hfetch & _ & Hall).
  - reflexivity.
  - reflexivity.
  - reflexivity.
  - intros _. exists Sample.c_id. reflexivity.
  - repeat constructor.
  - discriminate.
  - exists f', st1. split; [exact Hfetch|].
    destruct (Hall (PyObj Sample.p3)) as (l & k & Hl & Hk & Hrel & Hnone).
    + apply (bool_decide_unpack _). vm_compute. reflexivity.
    + injection Hl as <-.
      assert (k = None) as -> by (vm_compute in Hk; congruence).
      etransitivity; [exact Hrel|]. f_equal.
      apply Hnone. vm_compute. reflexivity.
Defined.

(** ** [CompositeFetcher] *)









Lemma mapR_Ok_in {A B} (g : A → result B) l ys x y :
  mapR g l = Ok ys → x ∈ l → g x = Ok y → y ∈ ys.
Proof.
  revert ys. induction l as [|x' l IH]; intros ys Hm Hx Hy; [by apply elem_of_nil in Hx|].
  simpl in Hm. destruct (g x') as [y'|] eqn:Hg; [|done]. rewrite bindR_Ok in Hm.
  destruct (mapR g l) as [ys'|] eqn:Hl; [|done]. injection Hm as <-.
  apply elem_of_cons in Hx as [->|Hx].
  - rewrite Hg in Hy. injection Hy as ->. apply elem_of_cons. by left.
  - apply elem_of_cons. right. by apply IH.
Qed.


Lemma sat_In_iff cols rc vals :
  sat cols (In_ rc vals) = true ↔ ∃ z, col_of cols rc = Some z ∧ Some z ∈ vals.
Proof.
  unfold col_of. simpl. destruct (cols !! rc) as [[z|]|]; simpl.
  - rewrite bool_decide_eq_true. split; [eauto|]. by intros (z' & [= <-] & ?).
  - split; [done|]. by intros (z & ? & _).
  - split; [done|]. by intros (z & ? & _).
Qed.



(** [populate] without backref population. *)
Lemma populate_no_backrefs db f s vals :
  path_populate_backrefs (f_path f) = false →
  local_values_list (st_heap s) f = Ok vals →
  Forall (λ e, accepts db (st_heap s) (rel_key (prop f)) e = true)
    (path_entities (f_path f)) →
  ∃ s', populate db f s = (Ok tt, s')
    ∧ st_queries s' = st_queries s
    ∧ frame (Some (rel_key (prop f))) s s'
    ∧ (∀ l, PyObj l ∉ path_entities (f_path f) →
         rel_at (st_heap s') l (rel_key (prop f))
         = rel_at (st_heap s) l (rel_key (prop f)))
    ∧ ∀ l, PyObj l ∈ path_entities (f_path f) →
        ∃ k, local_values (st_heap s) f (PyObj l) = Ok k ∧ k ∈ vals
             ∧ rel_at (st_heap s') l (rel_key (prop f)) = Some (dd_get f k).
Proof.
  intros Hpb Hvals Hacc.
  destruct (populate_entities_spec db f (path_entities (f_path f)) s)
    as (s' & Hrun & Hq & Hfr & Hout & Hin).
  { apply Forall_forall. intros e He. split.
    - by apply (proj1 (Forall_forall _ _) Hacc).
    - apply (mapR_Ok_elem _ _ _ e Hvals He). }
  exists s'. split.
  { unfold populate. rewrite (bindM_Ok _ _ _ _ _ Hrun). by rewrite Hpb. }
  split; [done|]. split; [done|]. split; [exact Hout|].
  intros l Hl. destruct (Hin l Hl) as (k & Hk & Hrel).
  exists k. split; [done|]. split; [|done].
  by apply (mapR_Ok_in _ _ _ _ _ Hvals Hl).
Qed.




(** ** Backref population *)

(** A loop that writes, on each item's entity, the value found for the
    entity's local value. *)
Lemma assign_loop_spec {A} db f key (ent : A → pyref) (val : colval → option value)
    (g : A → M unit) xs :
  (∀ x s k v, local_values (st_heap s) f (ent x) = Ok k → val k = Some v →
              g x s = set_committed_value db (ent x) (Some key) v s) →
  ∀ s,
  Forall (λ x, accepts db (st_heap s) key (ent x) = true
               ∧ ∃ k v, local_values (st_heap s) f (ent x) = Ok k ∧ val k = Some v) xs →
  ∃ s', forM g xs s = (Ok tt, s')
    ∧ st_queries s' = st_queries s
    ∧ frame (Some key) s s'
    ∧ (∀ l, PyObj l ∉ ent <$> xs → rel_at (st_heap s') l key = rel_at (st_heap s) l key)
    ∧ (∀ l, PyObj l ∈ ent <$> xs →
         ∃ k v, local_values (st_heap s) f (PyObj l) = Ok k ∧ val k = Some v
                ∧ rel_at (st_heap s') l key = Some v).
Proof.
  intros Hg. induction xs as [|x xs IH]; intros s Hxs.
  - exists s. split; [done|]. split; [done|]. split; [apply frame_refl|].
    split; [done|]. by intros l ?%elem_of_nil.
  - inversion Hxs as [|?? [Hacc (k & v & Hk & Hv)] Hxs']; subst.
    destruct (set_committed_value_ok db (ent x) key v s Hacc)
      as (l0 & s1 & Hl0 & Hset & Hq1 & Hnew & Hold).
    pose proof (set_committed_value_frame db (ent x) (Some key) v s) as Hfr1.
    rewrite Hset in Hfr1. simpl in Hfr1.
    destruct (IH s1) as (s' & Hrun & Hq & Hfr & Hout & Hin).
    { eapply Forall_impl; [exact Hxs'|]. intros x' [Hacc' (k' & v' & Hk' & Hv')]. split.
      - by rewrite <- (same_rows_accepts db (st_heap s) _ _ _ (proj1 Hfr1)).
      - exists k', v'. split; [|done].
        by rewrite <- (same_rows_local_values (st_heap s) _ _ _ (proj1 Hfr1)). }
    exists s'. split.
    { assert (Hgx : g x s = (Ok tt, s1)) by (by rewrite (Hg x s k v Hk Hv)).
      simpl. by rewrite (bindM_Ok _ _ _ _ _ Hgx). }
    split; [congruence|]. split; [by eapply frame_trans|]. split.
    + intros l Hl. rewrite fmap_cons in Hl. apply not_elem_of_cons in Hl as [Hne Hl].
      rewrite (Hout l Hl). apply Hold. congruence.
    + intros l Hl. destruct (decide (PyObj l ∈ ent <$> xs)) as [Hl'|Hl'].
      * destruct (Hin l Hl') as (k' & v' & Hk' & Hv' & Hrel). exists k', v'.
        split; [|done].
        by rewrite (same_rows_local_values (st_heap s) _ _ _ (proj1 Hfr1)).
      * rewrite fmap_cons in Hl. apply elem_of_cons in Hl as [Hl|Hl]; [|done].
        rewrite Hl0 in Hl. injection Hl as ->.
        exists k, v. rewrite <- Hl0. split; [done|]. split; [done|].
        by rewrite (Hout l0 Hl').
Qed.

Lemma rows_are_pairs h rc rows :
  Forall (row_ok h rc ManyToManyFetcher) rows →
  rows = map pair_row (map (keyed h rc) rows).
Proof.
  induction 1 as [|r rows Hr _ IH]; [done|]. simpl. rewrite <- IH.
  by destruct r.
Qed.

Lemma child_key_ok h f e k : local_values h f e = Ok k → child_key h f e = k.
Proof. intros H. unfold child_key. by rewrite H. Qed.

Lemma backref_init_pair h f d kr k :
  local_values h f kr.2 = Ok k →
  backref_init h f d (pair_row kr) = Ok (<[k := []]> d).
Proof.
  intros Hk. unfold backref_init, pair_row, unpack. rewrite bindR_Ok. cbv beta iota.
  by rewrite Hk.
Qed.

Lemma backref_collect_pair db h f cls mc d kr k l :
  path_session h (f_path f) = Ok tt →
  parent_model h (f_path f) = Ok cls →
  db_classes db !! cls = Some mc →
  local_values h f kr.2 = Ok k → d !! k = Some l →
  backref_collect db h f d (pair_row kr)
  = Ok (<[k := l ++ [parent_of db h cls kr.1]]> d).
Proof.
  intros Hs Hpm Hcls Hk Hl.
  assert (Hget : query_get db h cls kr.1 = Ok (parent_of db h cls kr.1)).
  { unfold parent_of, query_get. rewrite Hcls. by destruct kr.1. }
  unfold backref_collect, pair_row, unpack. rewrite bindR_Ok. cbv beta iota.
  rewrite Hk, bindR_Ok. unfold dict_get. rewrite Hl, bindR_Ok.
  rewrite Hs, bindR_Ok, Hpm, bindR_Ok. cbv beta. by rewrite Hget.
Qed.

(** The first loop of [populate_backrefs]: an empty list for every key. *)
Lemma backref_init_spec h f krs : ∀ d,
  Forall (λ kr, ∃ k, local_values h f kr.2 = Ok k) krs →
  ∃ d', foldR (backref_init h f) d (map pair_row krs) = Ok d'
    ∧ ∀ k, d' !! k = if bool_decide (k ∈ map (λ kr, child_key h f kr.2) krs)
                     then Some [] else d !! k.
Proof.
  induction krs as [|kr krs IH]; intros d Hkrs.
  - exists d. split; [done|]. intros k.
    rewrite bool_decide_eq_false_2; [done|]. by intros ?%elem_of_nil.
  - inversion Hkrs as [|?? [k0 Hk0] Hkrs']; subst.
    destruct (IH (<[k0 := []]> d) Hkrs') as (d' & Hfold & Hd').
    exists d'. split.
    { cbn [map foldR]. by rewrite (backref_init_pair _ _ _ _ _ Hk0), bindR_Ok. }
    intros k. rewrite Hd'. cbn [map]. rewrite (child_key_ok _ _ _ _ Hk0).
    destruct (decide (k ∈ map (λ kr, child_key h f kr.2) krs)) as [Hin|Hnin].
    + rewrite !bool_decide_eq_true_2; [done| |done]. apply elem_of_cons. by right.
    + rewrite (bool_decide_eq_false_2 _ Hnin).
      destruct (decide (k = k0)) as [->|Hne].
      * rewrite lookup_insert_eq. rewrite bool_decide_eq_true_2; [done|].
        apply elem_of_cons. by left.
      * rewrite lookup_insert_ne by done. rewrite bool_decide_eq_false_2; [done|].
        intros [?|?]%elem_of_cons; done.
Qed.

(** The second loop: every row appends its parent to the list of the
    key of its related entity. *)
Lemma backref_collect_spec db h f cls mc krs : ∀ d,
  path_session h (f_path f) = Ok tt →
  parent_model h (f_path f) = Ok cls →
  db_classes db !! cls = Some mc →
  Forall (λ kr, ∃ k, local_values h f kr.2 = Ok k ∧ is_Some (d !! k)) krs →
  ∃ d', foldR (backref_collect db h f) d (map pair_row krs) = Ok d'
    ∧ ∀ k, d' !! k = (λ l, l ++ backref_list db h f cls krs k) <$> d !! k.
Proof.
  intros d Hs Hpm Hcls. revert d.
  induction krs as [|kr krs IH]; intros d Hkrs.
  - exists d. split; [done|]. intros k. unfold backref_list. simpl.
    destruct (d !! k); simpl; [|done]. by rewrite app_nil_r.
  - inversion Hkrs as [|?? (k0 & Hk0 & [l0 Hl0]) Hkrs']; subst.
    destruct (IH (<[k0 := l0 ++ [parent_of db h cls kr.1]]> d)) as (d' & Hfold & Hd').
    { eapply Forall_impl; [exact Hkrs'|]. intros kr' (k' & Hk' & Hsome).
      exists k'. split; [done|]. destruct (decide (k0 = k')) as [->|Hne].
      - rewrite lookup_insert_eq. eauto.
      - by rewrite lookup_insert_ne. }
    exists d'. split.
    { cbn [map foldR].
      by rewrite (backref_collect_pair _ _ _ _ _ _ _ _ _ Hs Hpm Hcls Hk0 Hl0), bindR_Ok. }
    intros k. rewrite Hd'. unfold backref_list. cbn [List.filter].
    rewrite (child_key_ok _ _ _ _ Hk0).
    destruct (decide (k0 = k)) as [->|Hne].
    + rewrite lookup_insert_eq, Hl0. simpl.
      rewrite bool_decide_eq_true_2 by done. simpl. by rewrite <- app_assoc.
    + rewrite lookup_insert_ne by done.
      by rewrite bool_decide_eq_false_2 by done.
Qed.

Lemma forM_map {A B} (g : B → M unit) (h : A → B) xs :
  forM g (map h xs) = forM (λ x, g (h x)) xs.
Proof. induction xs as [|x xs IH]; simpl; [done|]. by rewrite IH. Qed.

Lemma backref_assign_pair db f bd bp kr s k l :
  rel_back_populates (prop f) = Some bp →
  local_values (st_heap s) f kr.2 = Ok k → bd !! k = Some l →
  backref_assign db f bd (pair_row kr) s
  = set_committed_value db kr.2 (Some bp) (VList l) s.
Proof.
  intros Hbp Hk Hl. unfold backref_assign, pair_row, unpack.
  munfold. cbv beta iota. rewrite Hk. cbv beta iota.
  unfold dict_get. rewrite Hl. cbv beta iota. by rewrite Hbp.
Qed.

Lemma same_rows_keyed h h' rc r : same_rows h h' → keyed h rc r = keyed h' rc r.
Proof.
  intros H. destruct r as [e|e pid]; [|done]. unfold keyed.
  by rewrite (same_rows_getattr_col h h').
Qed.

Lemma same_rows_fetched_rows db h h' f rc vals :
  same_rows h h' → fetched_rows db h f rc vals = fetched_rows db h' f rc vals.
Proof.
  intros H. unfold fetched_rows. rewrite (same_rows_run_query db h h') by done.
  apply map_ext. intros r. by apply same_rows_keyed.
Qed.

Lemma same_rows_parent_model h h' p :
  same_rows h h' → parent_model h p = parent_model h' p.
Proof.
  intros H. unfold parent_model. destruct (index0 _); [|done].
  rewrite !bindR_Ok. by apply same_rows_class_of.
Qed.

Lemma same_rows_query_get db h h' cls ident :
  same_rows h h' → query_get db h cls ident = query_get db h' cls ident.
Proof.
  intros H. unfold query_get. destruct (db_classes db !! cls); [|done].
  destruct ident as [z|]; [|done]. do 2 f_equal.
  induction (table db cls) as [|l ls IH]; [done|]. simpl.
  rewrite (same_rows_row_cols h h') by done.
  by destruct (bool_decide _).
Qed.

Lemma same_rows_backref_list db h h' f cls krs k :
  same_rows h h' → backref_list db h f cls krs k = backref_list db h' f cls krs k.
Proof.
  intros H. unfold backref_list.
  rewrite (filter_ext _ (λ kr, bool_decide (child_key h' f kr.2 = k))).
  - apply map_ext. intros kr. unfold parent_of.
    by rewrite (same_rows_query_get db h h').
  - intros kr. unfold child_key. by rewrite (same_rows_local_values h h').
Qed.

(** [populate_backrefs] on the rows of a join: three more queries, and
    every related entity receives the list built for its key. *)
Lemma populate_backrefs_spec db f q s bp cls mc rc :
  Forall (row_ok (st_heap s) rc ManyToManyFetcher) (run_query db (st_heap s) q) →
  rel_back_populates (prop f) = Some bp →
  path_session (st_heap s) (f_path f) = Ok tt →
  parent_model (st_heap s) (f_path f) = Ok cls →
  db_classes db !! cls = Some mc →
  Forall (λ kr, accepts db (st_heap s) bp kr.2 = true
                ∧ ∃ k, local_values (st_heap s) f kr.2 = Ok k)
    (map (keyed (st_heap s) rc) (run_query db (st_heap s) q)) →
  ∃ s', populate_backrefs db f q s = (Ok tt, s')
    ∧ st_queries s' = (3 + st_queries s)%nat
    ∧ frame (Some bp) s s'
    ∧ ∀ l, PyObj l ∈ (map (keyed (st_heap s) rc) (run_query db (st_heap s) q)).*2 →
        rel_at (st_heap s') l bp
        = Some (VList (backref_list db (st_heap s) f cls
                         (map (keyed (st_heap s) rc) (run_query db (st_heap s) q))
                         (child_key (st_heap s) f (PyObj l)))).
Proof.
  destruct s as [h n]. cbn [st_heap st_queries].
  set (krs := map (keyed h rc) (run_query db h q)).
  intros Hrows Hbp Hs Hpm Hcls Hkrs.
  assert (Hq : run_query db h q = map pair_row krs) by by apply rows_are_pairs.
  assert (Hit : ∀ m, iterate db q (mkState h m)
                     = (Ok (map pair_row krs), mkState h (S m))).
  { intros m. unfold iterate. cbn [st_heap st_queries]. by rewrite Hq. }
  destruct (backref_init_spec h f krs ∅) as (d0 & Hinit & Hd0).
  { eapply Forall_impl; [exact Hkrs|]. by intros kr [_ ?]. }
  assert (Hkey : ∀ kr, kr ∈ krs →
            ∃ k, local_values h f kr.2 = Ok k ∧ d0 !! k = Some []).
  { intros kr Hkr. destruct (proj1 (Forall_forall _ _) Hkrs kr Hkr) as [_ [k Hk]].
    exists k. split; [done|]. rewrite Hd0, bool_decide_eq_true_2; [done|].
    apply list_elem_of_In, in_map_iff. exists kr.
    split; [by apply child_key_ok|by apply list_elem_of_In]. }
  destruct (backref_collect_spec db h f cls mc krs d0 Hs Hpm Hcls) as (bd & Hcoll & Hbd).
  { apply Forall_forall. intros kr Hkr. destruct (Hkey kr Hkr) as (k & Hk & Hdk).
    exists k. split; [done|]. by rewrite Hdk. }
  assert (Hbdk : ∀ kr, kr ∈ krs →
            ∃ k, local_values h f kr.2 = Ok k
                 ∧ bd !! k = Some (backref_list db h f cls krs k)).
  { intros kr Hkr. destruct (Hkey kr Hkr) as (k & Hk & Hdk).
    exists k. split; [done|]. by rewrite Hbd, Hdk. }
  destruct (assign_loop_spec db f bp (λ kr : colval * pyref, kr.2)
              (λ k, VList <$> bd !! k)
              (λ kr, backref_assign db f bd (pair_row kr)) krs)
    with (s := mkState h (S (S (S n)))) as (s' & Hrun & Hqs & Hfr & _ & Hin).
  { intros kr s k v Hk Hv. destruct (bd !! k) as [l|] eqn:Hl; [|done].
    injection Hv as <-. by apply (backref_assign_pair _ _ _ bp _ _ k). }
  { apply Forall_forall. intros kr Hkr. cbn [st_heap].
    destruct (proj1 (Forall_forall _ _) Hkrs kr Hkr) as [Hacc _].
    destruct (Hbdk kr Hkr) as (k & Hk & Hl).
    split; [done|]. exists k, (VList (backref_list db h f cls krs k)).
    split; [done|]. by rewrite Hl. }
  exists s'. split.
  { unfold populate_backrefs.
    rewrite (bindM_Ok _ _ _ _ _ (Hit n)).
    munfold. cbv beta iota. cbn [st_heap]. rewrite Hinit. cbv beta iota.
    rewrite (Hit (S n)). cbv beta iota. cbn [st_heap]. rewrite Hcoll. cbv beta iota.
    rewrite (Hit (S (S n))). cbv beta iota.
    rewrite forM_map. exact Hrun. }
  split; [by rewrite Hqs|].
  split. { destruct Hfr as [Hsame Hrel]. by split. }
  intros l Hl.
  destruct (Hin l Hl) as (k & v & Hk & Hv & Hrel). cbn [st_heap] in Hk.
  rewrite Hrel. rewrite (child_key_ok _ _ _ _ Hk).
  apply list_elem_of_In, in_map_iff in Hl as (kr & Hkr2 & Hkr).
  apply list_elem_of_In in Hkr. destruct (Hbdk kr Hkr) as (k' & Hk' & Hl').
  rewrite Hkr2 in Hk'. assert (k' = k) as -> by congruence.
  rewrite Hl' in Hv. simpl in Hv. by injection Hv as <-.
Qed.

(** [fetch] and [populate] of a many-to-many path with backref
    population: four queries in all, and every fetched related entity
    has the inverse [bp] loaded with the list built for its key. *)
Lemma fetch_populate_backrefs_spec (db : database) (st : state) (p : path)
    (secondary bp rc : string) (vals : list colval) (cls : string) (mc : mapped_class) :
  rel_secondary (path_property p) = Some secondary →
  path_populate_backrefs p = true →
  rel_back_populates (path_property p) = Some bp →
  path_session (st_heap st) p = Ok tt →
  remote_column_name db (st_heap st) (path_fetcher p) = Ok (Some rc) →
  local_values_list (st_heap st) (path_fetcher p) = Ok vals →
  parent_model (st_heap st) p = Ok cls →
  db_classes db !! cls = Some mc →
  Forall (λ e, accepts db (st_heap st) (rel_key (path_property p)) e = true)
    (path_entities p) →
  Forall (λ kr, accepts db (st_heap st) bp kr.2 = true
                ∧ ∃ k, local_values (st_heap st) (path_fetcher p) kr.2 = Ok k)
    (fetched_rows db (st_heap st) (path_fetcher p) rc vals) →
  ∃ f' st2,
    fetch db (path_fetcher p) st = (Ok f', mkState (st_heap st) (S (st_queries st)))
    ∧ populate db f' (mkState (st_heap st) (S (st_queries st))) = (Ok tt, st2)
    ∧ st_queries st2 = (4 + st_queries st)%nat
    ∧ ∀ l, PyObj l ∈ (fetched_rows db (st_heap st) (path_fetcher p) rc vals).*2 →
        rel_at (st_heap st2) l bp
        = Some (VList (backref_list db (st_heap st) (path_fetcher p) cls
                         (fetched_rows db (st_heap st) (path_fetcher p) rc vals)
                         (child_key (st_heap st) (path_fetcher p) (PyObj l)))).
Proof.
  intros Hsec Hpb Hbp Hs Hrc Hvals Hpm Hcls Hacc Hkrs.
  assert (Hk : fetcher_class p = ManyToManyFetcher).
  { unfold fetcher_class. by rewrite Hsec. }
  assert (Hf : fetchable db (st_heap st) (path_fetcher p) rc vals).
  { apply path_fetcher_fetchable; try done; by rewrite Hk. }
  set (h := st_heap st) in *. set (f := path_fetcher p) in *.
  set (f' := set_parent_dict f
               (accumulate (f_kind f) (parent_dict f)
                  (map (keyed h rc) (run_query db h (fetch_query f rc vals))))).
  set (st1 := mkState h (S (st_queries st))).
  assert (Hfetch : fetch db f st = (Ok f', st1)).
  { apply (fetch_spec _ _ _ rc vals); [done|]. intros _. apply values_are_lists_empty. }
  destruct (populate_entities_spec db f' (path_entities p) st1)
    as (sF & Hrun & HqF & HfrF & _ & _).
  { apply Forall_forall. intros e He. split.
    - by apply (proj1 (Forall_forall _ _) Hacc).
    - apply (mapR_Ok_elem _ _ _ e Hvals He). }
  assert (Hsame : same_rows h (st_heap sF)) by apply HfrF.
  assert (HfF : fetchable db (st_heap sF) f' rc vals).
  { by apply (same_rows_fetchable db h). }
  assert (HkrsF : map (keyed (st_heap sF) rc)
                    (run_query db (st_heap sF) (fetch_query f' rc vals))
                  = fetched_rows db h f rc vals).
  { symmetry. apply (same_rows_fetched_rows db h (st_heap sF) f rc vals Hsame). }
  destruct (populate_backrefs_spec db f' (fetch_query f' rc vals) sF bp cls mc rc)
    as (s2 & Hback & Hq2 & _ & Hin).
  { assert (Hok := fetch_query_rows_ok db (st_heap sF) f' rc vals).
    change (f_kind f') with (fetcher_class p) in Hok. rewrite Hk in Hok.
    apply Hok. intros _. change (prop f') with (path_property p). by rewrite Hsec. }
  { exact Hbp. }
  { change (f_path f') with p. by rewrite <- (same_rows_path_session h). }
  { change (f_path f') with p. by rewrite <- (same_rows_parent_model h). }
  { exact Hcls. }
  { rewrite HkrsF. eapply Forall_impl; [exact Hkrs|]. intros kr [Ha [k Hkr]]. split.
    - by rewrite <- (same_rows_accepts db h).
    - exists k. rewrite <- (same_rows_local_values h) by done. exact Hkr. }
  exists f', s2. split; [exact Hfetch|]. split.
  { unfold populate. rewrite (bindM_Ok _ _ _ _ _ Hrun).
    change (f_path f') with p. rewrite Hpb.
    munfold. cbv beta iota.
    rewrite (related_entities_spec _ _ _ rc vals HfF). exact Hback. }
  split. { rewrite Hq2, HqF. done. }
  intros l Hl. rewrite HkrsF in Hin. rewrite (Hin l Hl). do 2 f_equal.
  rewrite <- (same_rows_backref_list db h (st_heap sF)) by done.
  unfold child_key. rewrite <- (same_rows_local_values h (st_heap sF)) by done.
  reflexivity.
Qed.


Lemma keyed_join db h model secondary on rc vals :
  map (keyed h rc) (run_query db h (QJoin model secondary on rc vals)) =
  unique_list
    (flat_map (λ a,
       if sat a (In_ rc vals)
       then map (λ l, (col_of a rc, PyObj l))
              (List.filter (λ l, join_on (row_cols h l) a on) (table db model))
       else [])
       (assoc_rows db secondary)).
Proof.
  cbn [run_query].
  set (rows0 := flat_map _ (assoc_rows db secondary)).
  assert (Hpairs : ∀ r, r ∈ rows0 → ∃ e pid, r = RowPair e pid).
  { intros r Hr.
    apply (elem_of_flat_map_if (λ a, sat a (In_ rc vals))
             (λ a l, join_on (row_cols h l) a on)
             (λ a l, RowPair (PyObj l) (col_of a rc))) in Hr
      as (a & l & _ & _ & _ & _ & ->). eauto. }
  rewrite <- (unique_list_map (keyed h rc)).
  2:{ intros x y Hx Hy. destruct (Hpairs x Hx) as (e1 & k1 & ->).
      destruct (Hpairs y Hy) as (e2 & k2 & ->). unfold keyed. congruence. }
  f_equal. unfold rows0. clear Hpairs rows0.
  induction (assoc_rows db secondary) as [|a rows IH]; [done|].
  cbn [flat_map]. rewrite map_app, IH. f_equal.
  destruct (sat a (In_ rc vals)); [|done]. by rewrite map_map.
Qed.

(** The fetched rows of a join: no pair twice, and the pair of a key
    and an entity is among them when an association row of the batch
    links them. *)
Lemma NoDup_keyed_join db h model secondary on rc vals :
  NoDup (map (keyed h rc) (run_query db h (QJoin model secondary on rc vals))).
Proof. rewrite keyed_join. apply NoDup_unique_list. Qed.

Lemma elem_of_keyed_join db h model secondary on rc vals k e :
  (k, e) ∈ map (keyed h rc) (run_query db h (QJoin model secondary on rc vals))
  ↔ ∃ l, e = PyObj l ∧ l ∈ table db model
         ∧ links db h secondary on rc vals k l ≠ [].
Proof.
  rewrite keyed_join, elem_of_unique_list.
  rewrite (elem_of_flat_map_if (λ a, sat a (In_ rc vals))
             (λ a l, join_on (row_cols h l) a on)
             (λ a l, (col_of a rc, PyObj l))).
  split.
  - intros (a & l & Ha & Hs & Hl & Hj & [= -> ->]). exists l.
    split; [done|]. split; [done|]. apply links_nonempty. by exists a.
  - intros (l & -> & Hl & Hne).
    apply links_nonempty in Hne as (a & Ha & Hj & Hs & <-). by exists a, l.
Qed.

Lemma elem_of_parent_keys krs e k : k ∈ parent_keys krs e ↔ (k, e) ∈ krs.
Proof.
  unfold parent_keys. rewrite list_elem_of_In, in_map_iff. split.
  - intros ([k' e'] & <- & Hkr). apply filter_In in Hkr as [Hkr He].
    apply bool_decide_eq_true in He. simpl in He. subst e'.
    by apply list_elem_of_In.
  - intros Hkr. exists (k, e). split; [done|]. apply filter_In.
    split; [by apply list_elem_of_In|]. by apply bool_decide_eq_true.
Qed.

Lemma NoDup_parent_keys krs e : NoDup krs → NoDup (parent_keys krs e).
Proof.
  induction 1 as [|[k e'] krs Hnin Hnd IH]; [constructor|].
  unfold parent_keys. cbn [List.filter snd].
  destruct (bool_decide (e' = e)) eqn:He; [|exact IH].
  apply bool_decide_eq_true in He. subst e'. cbn [map fst].
  apply NoDup_cons. split; [|exact IH].
  intros Hk. by apply elem_of_parent_keys in Hk.
Qed.

(** When the key [populate_backrefs] reads on a related entity tells
    the fetched entities apart, the list built for an entity holds the
    parents of its own rows. *)
Lemma backref_list_parent_keys db h f cls krs e :
  e ∈ krs.*2 →
  (∀ kr1 kr2, kr1 ∈ krs → kr2 ∈ krs →
              child_key h f kr1.2 = child_key h f kr2.2 → kr1.2 = kr2.2) →
  backref_list db h f cls krs (child_key h f e)
  = map (parent_of db h cls) (parent_keys krs e).
Proof.
  intros He Hid. apply list_elem_of_fmap in He as (kr0 & -> & Hkr0).
  unfold backref_list, parent_keys. rewrite map_map. f_equal.
  apply filter_ext_in. intros kr Hkr. apply list_elem_of_In in Hkr.
  apply bool_decide_ext. split; [by apply Hid|by intros ->].
Qed.

(** C6 (amended): for a many-to-many path with backref population
    whose relationship declares the inverse [bp], when the column of
    the related class named like the parents' local column tells the
    fetched related entities apart.  [fetch] and [populate] succeed
    with four queries in all, and every fetched related entity has
    [bp] loaded with a list of parents, as
    [session.query(parent_model).get] finds them, one for each parent
    key of the batch that an association row links to that entity: no
    key twice, however many association rows repeat the link. *)
Theorem populate_backrefs_many_to_many (db : database) (st : state) (p : path)
    (secondary bp rc : string) (vals : list colval) (cls : string) (mc : mapped_class) :
  rel_secondary (path_property p) = Some secondary →
  path_populate_backrefs p = true →
  rel_back_populates (path_property p) = Some bp →
  path_session (st_heap st) p = Ok tt →
  remote_column_name db (st_heap st) (path_fetcher p) = Ok (Some rc) →
  local_values_list (st_heap st) (path_fetcher p) = Ok vals →
  parent_model (st_heap st) p = Ok cls →
  db_classes db !! cls = Some mc →
  Forall (λ e, accepts db (st_heap st) (rel_key (path_property p)) e = true)
    (path_entities p) →
  Forall (λ kr, accepts db (st_heap st) bp kr.2 = true
                ∧ ∃ k, local_values (st_heap st) (path_fetcher p) kr.2 = Ok k)
    (fetched_rows db (st_heap st) (path_fetcher p) rc vals) →
  (∀ kr1 kr2,
     kr1 ∈ fetched_rows db (st_heap st) (path_fetcher p) rc vals →
     kr2 ∈ fetched_rows db (st_heap st) (path_fetcher p) rc vals →
     child_key (st_heap st) (path_fetcher p) kr1.2
     = child_key (st_heap st) (path_fetcher p) kr2.2 →
     kr1.2 = kr2.2) →
  ∃ f' st2,
    fetch db (path_fetcher p) st = (Ok f', mkState (st_heap st) (S (st_queries st)))
    ∧ populate db f' (mkState (st_heap st) (S (st_queries st))) = (Ok tt, st2)
    ∧ st_queries st2 = (4 + st_queries st)%nat
    ∧ ∀ l, PyObj l ∈ (fetched_rows db (st_heap st) (path_fetcher p) rc vals).*2 →
        ∃ pids,
          rel_at (st_heap st2) l bp
          = Some (VList (map (parent_of db (st_heap st) cls) pids))
          ∧ NoDup pids
          ∧ ∀ k, k ∈ pids ↔
                 links db (st_heap st) secondary
                   (rel_secondaryjoin (path_property p)) rc vals k l ≠ [].
Proof.
  intros Hsec Hpb Hbp Hs Hrc Hvals Hpm Hcls Hacc Hkrs Hid.
  destruct (fetch_populate_backrefs_spec db st p secondary bp rc vals cls mc)
    as (f' & st2 & Hfetch & Hpop & Hq & Hin); try done.
  exists f', st2. split; [exact Hfetch|]. split; [exact Hpop|]. split; [exact Hq|].
  intros l Hl.
  set (krs := fetched_rows db (st_heap st) (path_fetcher p) rc vals) in *.
  assert (Hjoin : krs = map (keyed (st_heap st) rc)
                          (run_query db (st_heap st)
                             (QJoin (path_model p) secondary
                                (rel_secondaryjoin (path_property p)) rc vals))).
  { unfold krs, fetched_rows, fetch_query, prop.
    cbn [f_kind f_path path_fetcher]. unfold fetcher_class. by rewrite Hsec. }
  exists (parent_keys krs (PyObj l)). split.
  { rewrite (Hin l Hl). by rewrite backref_list_parent_keys. }
  split.
  { apply NoDup_parent_keys. rewrite Hjoin. apply NoDup_keyed_join. }
  intros k. rewrite elem_of_parent_keys, Hjoin, elem_of_keyed_join. split.
  - by intros (l' & [= <-] & _ & Hne).
  - intros Hne. exists l. split; [done|]. split; [|done].
    apply list_elem_of_fmap in Hl as ([k0 e0] & He0 & Hkr0). simpl in He0. subst e0.
    rewrite Hjoin in Hkr0.
    by apply elem_of_keyed_join in Hkr0 as (l' & [= <-] & Hl' & _).
Qed.

Lemma populate_backrefs_many_to_many_witness :
  ∃ f' st2,
    fetch Sample.db0 (path_fetcher Sample.p_groups_backrefs) Sample.st0
      = (Ok f', mkState Sample.h0 1)
    ∧ populate Sample.db0 f' (mkState Sample.h0 1) = (Ok tt, st2)
    ∧ st_queries st2 = 4%nat
    ∧ ∃ pids,
        rel_at (st_heap st2) Sample.g1 "users"
        = Some (VList (map (parent_of Sample.db0 Sample.h0 "User") pids))
        ∧ NoDup pids
        ∧ ∀ k, k ∈ pids ↔
               links Sample.db0 Sample.h0 "user_group" ("id", "group_id") "user_id"
                 [Some 1%Z; Some 2%Z] k Sample.g1 ≠ [].
Proof.
  destruct (populate_backrefs_many_to_many Sample.db0 Sample.st0
              Sample.p_groups_backrefs "user_group" "users" "user_id"
              [Some 1%Z; Some 2%Z] "User" Sample.User)
    as (f' & st2 & Hfetch & Hpop & Hq & Hin).
  - reflexivity.
  - reflexivity.
  - reflexivity.
  - reflexivity.
  - reflexivity.
  - reflexivity.
  - reflexivity.
  - reflexivity.
  - repeat constructor.
  - repeat (constructor; [split; [reflexivity|eexists; reflexivity]|]).
    constructor.
  - intros kr1 kr2 H1 H2 Hck. apply list_elem_of_In in H1, H2.
    vm_compute in H1, H2.
    destruct H1 as [<-|[<-|[]]], H2 as [<-|[<-|[]]]; try reflexivity;
      vm_compute in Hck; discriminate Hck.
  - exists f', st2. split; [exact Hfetch|]. split; [exact Hpop|].
    split; [exact Hq|].
    apply (Hin Sample.g1).
    apply (bool_decide_unpack _). vm_compute. reflexivity.
Defined.

(** C6 as stated fails for a one-to-many fetch with a declared
    inverse: [populate] raises [TypeError] when it unpacks the first
    related row, and the inverse attribute of the children stays
    unloaded.  It also fails for a relationship without inverse:
    backref population is no no-op there, it raises [KeyError]. *)
Lemma populate_backrefs_counterexample :
  (fetcher_class Sample.p_phones = OneToManyFetcher
   ∧ rel_back_populates Sample.r_phones = Some "user"
   ∧ (batch_fetch Sample.db0 [PyObj Sample.u1; PyObj Sample.u2]
        [with_backrefs (PStr "phones")] Sample.st0).1 = Raise TypeError
   ∧ rel_at (st_heap (batch_fetch Sample.db0 [PyObj Sample.u1; PyObj Sample.u2]
                        [with_backrefs (PStr "phones")] Sample.st0).2)
       Sample.u1 "phones" = Some (VList [PyObj Sample.p1; PyObj Sample.p2])
   ∧ rel_at (st_heap (batch_fetch Sample.db0 [PyObj Sample.u1; PyObj Sample.u2]
                        [with_backrefs (PStr "phones")] Sample.st0).2)
       Sample.p1 "user" = None)
  ∧ (rel_back_populates Sample.r_managed_groups = None
     ∧ (batch_fetch Sample.db0 [PyObj Sample.u1; PyObj Sample.u2]
          [PStr "managed_groups"] Sample.st0).1 = Ok tt
     ∧ (batch_fetch Sample.db0 [PyObj Sample.u1; PyObj Sample.u2]
          [with_backrefs (PStr "managed_groups")] Sample.st0).1 = Raise KeyError).
Proof. repeat split; vm_compute; reflexivity. Qed.

(** * Further properties of the code *)

(** ** What a call never does *)











(** ** Several path specifiers *)

Lemma forM_app {A} (g : A → M unit) (xs ys : list A) (s : state) :
  forM g (xs ++ ys) s =
  match forM g xs s with
  | (Ok _, s') => forM g ys s'
  | (Raise e, s') => (Raise e, s')
  end.
Proof.
  revert s. induction xs as [|x xs IH]; intros s; simpl; [done|].
  unfold mbind, M_bind. destruct (g x s) as [[[]|e] s1]; [apply IH|done].
Qed.

(** X2: a call with the path specifiers [ps1 ++ ps2] is the call with
    [ps1] followed, when it returns, by the call with [ps2] on the
    state it left; when the first call raises, the whole call raises
    the same exception in the same state: what the earlier specifiers
    populated is not undone. *)
Theorem batch_fetch_app (db : database) (entities : list pyref)
    (ps1 ps2 : list path_spec) (st : state) :
  batch_fetch db entities (ps1 ++ ps2) st =
  match batch_fetch db entities ps1 st with
  | (Ok _, st1) => batch_fetch db entities ps2 st1
  | (Raise e, st1) => (Raise e, st1)
  end.
Proof.
  unfold batch_fetch. destruct entities as [|e es]; [done|]. apply forM_app.
Qed.

(** ** One path specifier, from [parse] to [populate] *)

Lemma parse_populate_backrefs db h entities spec pb p :
  parse db h entities spec pb = Ok p → path_populate_backrefs p = pb.
Proof.
  assert (Hinit : ∀ ents prop, Path_init ents prop pb = Ok p →
                               path_populate_backrefs p = pb).
  { intros ents [c|r]; [done|]. by intros [= <-]. }
  destruct spec as [s|prop| | |]; try done; simpl; [|apply Hinit].
  destruct (split_dot s) as [a tl]. revert entities a.
  induction tl as [|b tl IH]; intros ents a; simpl.
  - destruct (index0 ents); [|done]. rewrite bindR_Ok.
    destruct (class_of h a0); [|done]. rewrite bindR_Ok.
    destruct (class_getattr db a1 a); [|done]. rewrite bindR_Ok. apply Hinit.
  - destruct (related_entities_of h ents a); [|done]. rewrite bindR_Ok. apply IH.
Qed.

Lemma flat_map_nil {A B} (g : A → list B) l :
  (∀ x, g x = []) → flat_map g l = [].
Proof. intros Hg. induction l as [|x l IH]; simpl; [done|]. by rewrite Hg, IH. Qed.

Lemma filter_none {A} (P : A → bool) l : (∀ x, P x = false) → List.filter P l = [].
Proof. intros HP. induction l as [|x l IH]; simpl; [done|]. by rewrite HP. Qed.

(** The rows a fetcher files under a key of its batch are the related
    rows of that key: they do not depend on the rest of the batch. *)
Lemma with_key_related_rows db h p rc vals k :
  k ∈ vals →
  with_key k (fetched_rows db h (path_fetcher p) rc vals) = related_rows db h p rc k.
Proof.
  intros Hk. unfold fetched_rows, fetch_query, related_rows, prop.
  cbn [f_kind f_path path_fetcher]. unfold fetcher_class.
  assert (Hsat : ∀ cols z, col_of cols rc = Some z → sat cols (In_ rc vals) = true
                           ∨ k ≠ Some z).
  { intros cols z Hz. destruct (decide (k = Some z)) as [->|]; [left|by right].
    apply sat_In_iff. eauto. }
  destruct (rel_secondary (path_property p)) as [secondary|].
  - rewrite with_key_join. unfold linked_rows. destruct k as [z|].
    + f_equal. apply flat_map_ext. intros a.
      destruct (bool_decide (col_of a rc = Some z)) eqn:Hz;
        [|by rewrite !andb_false_r].
      apply bool_decide_eq_true in Hz.
      destruct (Hsat a z Hz) as [->|]; done.
    + rewrite flat_map_nil; [done|]. intros a.
      destruct (sat a (In_ rc vals)) eqn:Hs; [|done].
      apply sat_In_iff in Hs as (z & Hz & _). rewrite Hz.
      by rewrite (bool_decide_eq_false_2 (Some z = None)).
  - assert (Hq : ∀ kind : fetcher_kind,
              match kind, @None string with
              | ManyToManyFetcher, Some secondary =>
                  QJoin (path_model p) secondary
                    (rel_secondaryjoin (path_property p)) rc vals
              | _, _ => QFilter (path_model p) (In_ rc vals)
              end = QFilter (path_model p) (In_ rc vals)) by (by intros []).
    rewrite Hq, with_key_filter. unfold matching_rows. destruct k as [z|].
    + f_equal. apply filter_ext. intros l.
      destruct (bool_decide (col_of (row_cols h l) rc = Some z)) eqn:Hz;
        [|by rewrite andb_false_r].
      apply bool_decide_eq_true in Hz.
      destruct (Hsat (row_cols h l) z Hz) as [->|]; done.
    + rewrite filter_none; [done|]. intros l.
      destruct (sat (row_cols h l) (In_ rc vals)) eqn:Hs; [|done].
      apply sat_In_iff in Hs as (z & Hz & _). rewrite Hz.
      by rewrite (bool_decide_eq_false_2 (Some z = None)).
Qed.

(** One specifier without backref population, once [parse] gave the
    path [p]. *)
Lemma coordinator_call_single db st entities spec p rc vals :
  simple_spec spec →
  parse db (st_heap st) entities spec false = Ok p →
  fetchable db (st_heap st) (path_fetcher p) rc vals →
  Forall (λ x, accepts db (st_heap st) (rel_key (path_property p)) x = true)
    (path_entities p) →
  ∃ st', coordinator_call db entities spec st = (Ok tt, st')
    ∧ st_queries st' = S (st_queries st)
    ∧ frame (Some (rel_key (path_property p))) st st'
    ∧ (∀ l, PyObj l ∉ path_entities p →
         rel_at (st_heap st') l (rel_key (path_property p))
         = rel_at (st_heap st) l (rel_key (path_property p)))
    ∧ ∀ l, PyObj l ∈ path_entities p →
        ∃ k, local_values (st_heap st) (path_fetcher p) (PyObj l) = Ok k
             ∧ rel_at (st_heap st') l (rel_key (path_property p))
               = Some (group_of (fetcher_class p)
                         (related_rows db (st_heap st) p rc k)).
Proof.
  intros Hspec Hparse Hf Hacc.
  pose proof (parse_populate_backrefs _ _ _ _ _ _ Hparse) as Hpb.
  pose proof Hf as (_ & _ & Hvals & _).
  set (h := st_heap st) in *. set (f := path_fetcher p) in *.
  set (f' := set_parent_dict f
               (accumulate (f_kind f) (parent_dict f)
                  (map (keyed h rc) (run_query db h (fetch_query f rc vals))))).
  set (st1 := mkState h (S (st_queries st))).
  assert (Hfetch : fetch db f st = (Ok f', st1)).
  { apply (fetch_spec _ _ _ rc vals); [done|]. intros _. apply values_are_lists_empty. }
  destruct (populate_no_backrefs db f' st1 vals Hpb Hvals Hacc)
    as (st' & Hpop & Hq & Hfr & Hout & Hin).
  exists st'. split.
  { unfold coordinator_call.
    destruct spec; try done; munfold; cbv beta iota; fold h;
      rewrite Hparse; cbv beta iota; fold f; rewrite Hfetch; exact Hpop. }
  split; [exact Hq|].
  split. { destruct Hfr as [Hsame Hrel]. by split. }
  split; [exact Hout|].
  intros l Hl. destruct (Hin l Hl) as (k & Hk & Hkin & Hrel).
  exists k. split; [exact Hk|].
  change (rel_key (prop f')) with (rel_key (path_property p)) in Hrel.
  rewrite Hrel. f_equal.
  unfold dd_get, f'. cbn [f_kind parent_dict set_parent_dict f path_fetcher].
  rewrite accumulate_group.
  by rewrite <- (with_key_related_rows db h p rc vals k Hkin).
Qed.

Lemma batch_fetch_single_ok db e es q st st' :
  coordinator_call db (e :: es) q st = (Ok tt, st') →
  batch_fetch db (e :: es) [q] st = (Ok tt, st').
Proof. intros H. unfold batch_fetch. simpl. munfold. by rewrite H. Qed.

(** X3: one string or attribute path without backref population, on
    entities whose class has the relationship.  The call runs exactly
    one query, whatever the number of entities; it changes nothing but
    the relationship attribute of the entities of the path (for a
    dotted string these are the entities the earlier hops lead to, not
    the root entities); and every such entity receives the entities
    related to its own local value, as if it had been fetched alone:
    their list for the to-many fetchers, the last of them (or [None])
    for the many-to-one fetcher. *)
Theorem batch_fetch_single_path (db : database) (st : state) (e : pyref)
    (es : list pyref) (spec : path_spec) (p : path) (rc : string)
    (vals : list colval) :
  simple_spec spec →
  parse db (st_heap st) (e :: es) spec false = Ok p →
  path_session (st_heap st) p = Ok tt →
  remote_column_name db (st_heap st) (path_fetcher p) = Ok (Some rc) →
  local_values_list (st_heap st) (path_fetcher p) = Ok vals →
  (fetcher_class p ≠ ManyToManyFetcher →
   ∃ c, class_getattr db (path_model p) rc = Ok (ColumnProperty c)) →
  Forall (λ x, accepts db (st_heap st) (rel_key (path_property p)) x = true)
    (path_entities p) →
  ∃ st', batch_fetch db (e :: es) [spec] st = (Ok tt, st')
    ∧ st_queries st' = S (st_queries st)
    ∧ frame (Some (rel_key (path_property p))) st st'
    ∧ (∀ l, PyObj l ∉ path_entities p →
         rel_at (st_heap st') l (rel_key (path_property p))
         = rel_at (st_heap st) l (rel_key (path_property p)))
    ∧ ∀ l, PyObj l ∈ path_entities p →
        ∃ k, local_values (st_heap st) (path_fetcher p) (PyObj l) = Ok k
             ∧ rel_at (st_heap st') l (rel_key (path_property p))
               = Some (group_of (fetcher_class p)
                         (related_rows db (st_heap st) p rc k)).
Proof.
  intros Hspec Hparse Hs Hrc Hvals Hcol Hacc.
  destruct (coordinator_call_single db st (e :: es) spec p rc vals)
    as (st' & Hcall & Hrest); try done.
  { by apply path_fetcher_fetchable. }
  exists st'. split; [by apply batch_fetch_single_ok|exact Hrest].
Qed.

Lemma batch_fetch_single_path_witness :
  ∃ st', batch_fetch Sample.db0 [PyObj Sample.u1; PyObj Sample.u2]
           [PStr "phones.user"] (mkState Sample.h_phones 0) = (Ok tt, st')
    ∧ st_queries st' = 1%nat
    ∧ rel_at (st_heap st') Sample.p2 "user" = Some (VOne (PyObj Sample.u1))
    ∧ rel_at (st_heap st') Sample.u1 "user" = None.
Proof.
  destruct (batch_fetch_single_path Sample.db0 (mkState Sample.h_phones 0)
              (PyObj Sample.u1) [PyObj Sample.u2] (PStr "phones.user")
              (mkPath [PyObj Sample.p1; PyObj Sample.p2] Sample.r_user false)
              "id" [Some 1%Z; Some 1%Z])
    as (st' & Hcall & Hq & _ & Hout & Hin).
  - exact I.
  - reflexivity.
  - reflexivity.
  - reflexivity.
  - reflexivity.
  - intros _. exists Sample.c_id. reflexivity.
  - repeat constructor.
  - exists st'. split; [exact Hcall|]. split; [exact Hq|]. split.
    + destruct (Hin Sample.p2) as (k & Hk & Hrel).
      { apply (bool_decide_unpack _). vm_compute. reflexivity. }
      assert (k = Some 1%Z) as -> by (vm_compute in Hk; congruence).
      etransitivity; [exact Hrel|]. reflexivity.
    + etransitivity; [apply (Hout Sample.u1)|reflexivity].
      apply (bool_decide_unpack _). vm_compute. reflexivity.
Defined.

(** ** Dotted paths, hop by hop *)

Lemma parse_attrs_hops db h pb pre : ∀ entities a tl last,
  a :: tl = pre ++ [last] →
  parse_attrs db h entities a tl pb =
  (reached ← foldR (related_entities_of h) entities pre;
   resolve db h reached last pb).
Proof.
  induction pre as [|x pre IH]; intros entities a tl last Heq.
  - injection Heq as -> ->. done.
  - simpl in Heq. injection Heq as <- ->.
    destruct pre as [|y pre]; simpl.
    + destruct (related_entities_of h entities a); [|done]. by rewrite !bindR_Ok.
    + destruct (related_entities_of h entities a) as [related|]; [|done].
      rewrite !bindR_Ok. by apply (IH related y).
Qed.

Lemma parse_hops db h entities s pre last pb :
  (split_dot s).1 :: (split_dot s).2 = pre ++ [last] →
  parse db h entities (PStr s) pb =
  (reached ← foldR (related_entities_of h) entities pre;
   resolve db h reached last pb).
Proof.
  intros Heq. unfold parse. destruct (split_dot s) as [a tl]. simpl in Heq.
  by apply parse_attrs_hops.
Qed.

Lemma resolve_entities db h entities a pb p :
  resolve db h entities a pb = Ok p → path_entities p = entities.
Proof.
  unfold resolve.
  destruct (index0 entities); [|done]. rewrite bindR_Ok.
  destruct (class_of h a0); [|done]. rewrite bindR_Ok.
  destruct (class_getattr db a1 a) as [[c|r]|]; try done.
  simpl. by intros [= <-].
Qed.

(** X4: [Path.parse] on a string is an iteration over its segments:
    every segment but the last replaces the entities by the
    concatenation of their lists under that attribute (the first
    failure ends the parse with its exception), and the last segment is
    resolved on the class of the first entity that was reached; the
    entities of the resulting path are the reached ones. *)
Theorem parse_hop_by_hop (db : database) (h : heap) (entities : list pyref)
    (s : string) (pre : list string) (last : string) (pb : bool) :
  (split_dot s).1 :: (split_dot s).2 = pre ++ [last] →
  parse db h entities (PStr s) pb =
  (reached ← foldR (related_entities_of h) entities pre;
   resolve db h reached last pb)
  ∧ ∀ p, parse db h entities (PStr s) pb = Ok p →
         foldR (related_entities_of h) entities pre = Ok (path_entities p).
Proof.
  intros Heq. split; [by apply parse_hops|].
  intros p. rewrite (parse_hops _ _ _ _ _ _ _ Heq).
  destruct (foldR (related_entities_of h) entities pre) as [reached|]; [|done].
  rewrite bindR_Ok. intros Hres. by rewrite (resolve_entities _ _ _ _ _ _ Hres).
Qed.

Lemma parse_hop_by_hop_witness :
  parse Sample.db0 Sample.h_phones [PyObj Sample.u1; PyObj Sample.u2]
    (PStr "phones.user") true
  = resolve Sample.db0 Sample.h_phones [PyObj Sample.p1; PyObj Sample.p2] "user" true.
Proof.
  etransitivity.
  - apply (parse_hop_by_hop Sample.db0 Sample.h_phones
             [PyObj Sample.u1; PyObj Sample.u2] "phones.user" ["phones"] "user" true).
    reflexivity.
  - reflexivity.
Defined.

(** ** Path specifiers the coordinator rejects *)

Lemma coordinator_call_unwrap db entities q :
  coordinator_call db entities q =
  match unwrap q with
  | CompositePath paths =>
      h ← get_heap;
      fetchers ← liftR (parse_fetchers db h entities paths (wants_backrefs q));
      fetchers ← liftR (CompositeFetcher_init fetchers);
      fetchers ← composite_fetch db fetchers;
      composite_populate db fetchers
  | p =>
      h ← get_heap;
      x ← liftR (parse db h entities p (wants_backrefs q));
      f ← fetch db (path_fetcher x);
      populate db f
  end.
Proof. destruct q as [s|prop|p'|paths|]; try done. by destruct p'. Qed.

(** X5: with at least one entity, a path specifier that is, once one
    [with_backrefs] marker is removed, neither a string, nor an
    attribute handle, nor a [CompositePath] -- a second marker, or any
    other object -- makes [batch_fetch] raise 'Unknown path type.'
    with the state unchanged; so does a [CompositePath] one of whose
    members is not a string or a handle, when the members before it
    parse. *)
Theorem batch_fetch_unknown_path_type (db : database) (st : state) (e : pyref)
    (es : list pyref) (q : path_spec) :
  match unwrap q with
  | PStr _ | PAttr _ => False
  | CompositePath paths =>
      ∃ pre bad post fs,
        paths = pre ++ bad :: post
        ∧ ¬ simple_spec bad
        ∧ parse_fetchers db (st_heap st) (e :: es) pre (wants_backrefs q) = Ok fs
  | _ => True
  end →
  batch_fetch db (e :: es) [q] st = (Raise UnknownPathSpecError, st).
Proof.
  intros Hq. apply batch_fetch_single_error. rewrite coordinator_call_unwrap.
  destruct (unwrap q) as [s|prop|p'|paths|]; try done.
  destruct Hq as (pre & bad & post & fs & -> & Hbad & Hpre).
  munfold. cbv beta iota.
  assert (Hfs : parse_fetchers db (st_heap st) (e :: es) (pre ++ bad :: post)
                  (wants_backrefs q) = Raise UnknownPathSpecError).
  { clear -Hbad Hpre. revert fs Hpre.
    induction pre as [|p pre IH]; intros fs Hpre; simpl.
    - by destruct bad.
    - simpl in Hpre.
      destruct (parse db (st_heap st) (e :: es) p (wants_backrefs q)); [|done].
      rewrite bindR_Ok in *.
      destruct (parse_fetchers db (st_heap st) (e :: es) pre (wants_backrefs q))
        as [fs'|]; [|done].
      by rewrite (IH fs'). }
  by rewrite Hfs.
Qed.

Lemma batch_fetch_unknown_path_type_witness :
  batch_fetch Sample.db0 [PyObj Sample.u1; PyObj Sample.u2]
    [CompositePath [PStr "phones"; with_backrefs (PStr "owned_phones")]] Sample.st0
  = (Raise UnknownPathSpecError, Sample.st0).
Proof.
  apply (batch_fetch_unknown_path_type Sample.db0 Sample.st0 (PyObj Sample.u1)
           [PyObj Sample.u2]).
  simpl. exists [PStr "phones"], (with_backrefs (PStr "owned_phones")), [].
  eexists. split; [reflexivity|]. split; [by intros []|]. reflexivity.
Defined.

(** X6: a [CompositePath] whose members parse but do not all lead to
    the related class of the first member is refused by
    [CompositeFetcher.__init__]: [batch_fetch] raises before any query
    and leaves the state unchanged.  A [CompositePath] without members
    passes that check and fails in [fetch] with [IndexError], also
    before any query. *)
Theorem batch_fetch_composite_refused (db : database) (st : state) (e : pyref)
    (es : list pyref) (q : path_spec) (paths : list path_spec)
    (fs : list fetcher) :
  unwrap q = CompositePath paths →
  parse_fetchers db (st_heap st) (e :: es) paths (wants_backrefs q) = Ok fs →
  match fs with
  | [] => True
  | f0 :: _ => ∃ f, f ∈ fs ∧ path_model (f_path f) ≠ path_model (f_path f0)
  end →
  batch_fetch db (e :: es) [q] st =
  (Raise match fs with [] => IndexError | _ => IncompatibleFetcherError end, st).
Proof.
  intros Hq Hfs Hbad. apply batch_fetch_single_error.
  rewrite coordinator_call_unwrap, Hq. munfold. cbv beta iota. rewrite Hfs.
  cbv beta iota. destruct fs as [|f0 fs]; [done|].
  unfold CompositeFetcher_init.
  destruct (forallb _ _) eqn:Hall; [|done].
  destruct Hbad as (f & Hf & Hne). exfalso. apply Hne.
  apply list_elem_of_In in Hf.
  apply (proj1 (forallb_forall _ _) Hall) in Hf.
  by apply String.eqb_eq in Hf.
Qed.

Lemma batch_fetch_composite_refused_witness :
  batch_fetch Sample.db0 [PyObj Sample.u1; PyObj Sample.u2]
    [with_backrefs (CompositePath [PStr "phones"; PStr "groups"])] Sample.st0
  = (Raise IncompatibleFetcherError, Sample.st0).
Proof.
  apply (batch_fetch_composite_refused Sample.db0 Sample.st0 (PyObj Sample.u1)
           [PyObj Sample.u2] _ [PStr "phones"; PStr "groups"]
           [path_fetcher (mkPath [PyObj Sample.u1; PyObj Sample.u2] Sample.r_phones true);
            path_fetcher (mkPath [PyObj Sample.u1; PyObj Sample.u2] Sample.r_groups true)]).
  - reflexivity.
  - reflexivity.
  - eexists. split.
    + apply elem_of_cons. right. apply elem_of_cons. left. reflexivity.
    + discriminate.
Defined.

(** ** What the populated attributes are worth *)

Lemma last_all_equal {A} (a d : A) l : Forall (λ x, x = a) l → List.last (a :: l) d = a.
Proof.
  induction 1 as [|x l -> _ IH]; [done|].
  change (List.last (a :: a :: l) d) with (List.last (a :: l) d). exact IH.
Qed.

Lemma last_filter_find (P : loc → bool) ls :
  (∀ l1 l2, l1 ∈ ls → l2 ∈ ls → P l1 = true → P l2 = true → l1 = l2) →
  List.last (map PyObj (List.filter P ls)) PyNone
  = match List.find P ls with Some l => PyObj l | None => PyNone end.
Proof.
  induction ls as [|x ls IH]; intros Huniq; [done|]. simpl.
  destruct (P x) eqn:Hx.
  - cbn [map]. apply last_all_equal. apply Forall_forall. intros y Hy.
    apply list_elem_of_In, in_map_iff in Hy as (l & <- & Hl).
    apply filter_In in Hl as [Hl HPl]. f_equal.
    apply Huniq; [|apply elem_of_cons; by left|done|done].
    apply elem_of_cons. right. by apply list_elem_of_In.
  - apply IH. intros l1 l2 H1 H2. apply Huniq; apply elem_of_cons; by right.
Qed.

(** X7: a many-to-one path whose remote column is the primary key of
    the related class, unique in its table: after [batch_fetch] every
    entity of the path holds what
    [session.query(model).get(local value)] returns -- the row with
    that key, or [None] when the local value is NULL or no row has
    it. *)
Theorem many_to_one_fetch_is_get (db : database) (st : state) (e : pyref)
    (es : list pyref) (spec : path_spec) (p : path) (rc : string)
    (vals : list colval) (mc : mapped_class) :
  simple_spec spec →
  parse db (st_heap st) (e :: es) spec false = Ok p →
  fetcher_class p = ManyToOneFetcher →
  path_session (st_heap st) p = Ok tt →
  remote_column_name db (st_heap st) (path_fetcher p) = Ok (Some rc) →
  local_values_list (st_heap st) (path_fetcher p) = Ok vals →
  (∃ c, class_getattr db (path_model p) rc = Ok (ColumnProperty c)) →
  db_classes db !! path_model p = Some mc →
  cls_pk mc = rc →
  (∀ l1 l2 z, l1 ∈ table db (path_model p) → l2 ∈ table db (path_model p) →
              col_of (row_cols (st_heap st) l1) rc = Some z →
              col_of (row_cols (st_heap st) l2) rc = Some z → l1 = l2) →
  Forall (λ x, accepts db (st_heap st) (rel_key (path_property p)) x = true)
    (path_entities p) →
  ∃ st', batch_fetch db (e :: es) [spec] st = (Ok tt, st')
    ∧ ∀ l, PyObj l ∈ path_entities p →
        ∃ k r, local_values (st_heap st) (path_fetcher p) (PyObj l) = Ok k
               ∧ query_get db (st_heap st) (path_model p) k = Ok r
               ∧ rel_at (st_heap st') l (rel_key (path_property p)) = Some (VOne r).
Proof.
  intros Hspec Hparse Hkind Hs Hrc Hvals Hcol Hcls Hpk Huniq Hacc.
  destruct (coordinator_call_single db st (e :: es) spec p rc vals)
    as (st' & Hcall & _ & _ & _ & Hin); try done.
  { by apply path_fetcher_fetchable. }
  exists st'. split; [by apply batch_fetch_single_ok|].
  intros l Hl. destruct (Hin l Hl) as (k & Hk & Hrel).
  exists k. rewrite Hrel, Hkind. cbn [group_of].
  assert (Hsec : rel_secondary (path_property p) = None).
  { unfold fetcher_class in Hkind. by destruct (rel_secondary (path_property p)). }
  unfold query_get, related_rows. rewrite Hcls, Hsec, Hpk.
  destruct k as [z|].
  - eexists. split; [done|]. split; [done|]. do 2 f_equal.
    apply last_filter_find. intros l1 l2 H1 H2 P1 P2.
    apply bool_decide_eq_true in P1, P2. by apply (Huniq l1 l2 z).
  - eexists. done.
Qed.

Lemma many_to_one_fetch_is_get_witness :
  ∃ st', batch_fetch Sample.db0 [PyObj Sample.p1; PyObj Sample.p3]
           [PStr "user"] Sample.st0 = (Ok tt, st')
    ∧ rel_at (st_heap st') Sample.p1 "user" = Some (VOne (PyObj Sample.u1)).
Proof.
  destruct (many_to_one_fetch_is_get Sample.db0 Sample.st0 (PyObj Sample.p1)
              [PyObj Sample.p3] (PStr "user") Sample.p_user "id"
              [Some 1%Z; None] Sample.User)
    as (st' & Hcall & Hin).
  - exact I.
  - reflexivity.
  - reflexivity.
  - reflexivity.
  - reflexivity.
  - reflexivity.
  - exists Sample.c_id. reflexivity.
  - reflexivity.
  - reflexivity.
  - intros l1 l2 z H1 H2.
    apply list_elem_of_In in H1, H2. simpl in H1, H2.
    destruct H1 as [<-|[<-|[]]], H2 as [<-|[<-|[]]]; try done.
    all: intros C1 C2; vm_compute in C1, C2; congruence.
  - repeat constructor.
  - exists st'. split; [exact Hcall|].
    destruct (Hin Sample.p1) as (k & r & Hk & Hr & Hrel).
    { apply (bool_decide_unpack _). vm_compute. reflexivity. }
    assert (k = Some 1%Z) as -> by (vm_compute in Hk; congruence).
    assert (r = PyObj Sample.u1) as ->
      by (vm_compute in Hr; injection Hr as <-; reflexivity).
    exact Hrel.
Defined.

Lemma Forall2_map_r {A B} (R : A → B → Prop) (g : A → B) xs :
  (∀ x, x ∈ xs → R x (g x)) → Forall2 R xs (map g xs).
Proof.
  induction xs as [|x xs IH]; intros H; [constructor|].
  constructor.
  - apply H. apply elem_of_cons. by left.
  - apply IH. intros y Hy. apply H. apply elem_of_cons. by right.
Qed.

Lemma getattr_loaded h l a v :
  rel_at h l a = Some v → has_column h a l = false →
  getattr h (PyObj l) a = Ok (PVRel v).
Proof.
  unfold rel_at, has_column, row_cols, getattr.
  destruct (h !! l) as [o|]; simpl; [|done].
  intros Hv Hc. destruct (obj_cols o !! a); [done|]. by rewrite Hv.
Qed.

Lemma parse_first_hop db h entities lists a rest pb :
  no_dot a = true →
  Forall2 (λ e l, getattr h e a = Ok (PVRel (VList l))) entities lists →
  parse db h entities (PStr (a +:+ ("." +:+ rest))) pb
  = parse db h (concat lists) (PStr rest) pb.
Proof.
  intros Ha Hlists. unfold parse. rewrite (split_dot_cons _ _ Ha).
  destruct (split_dot rest) as [b tl]. simpl.
  by rewrite (related_entities_of_lists _ _ _ _ Hlists), bindR_Ok.
Qed.

(** X8: the order the docstring of [batch_fetch] asks for.  After a
    call with the name [a] of a to-many relationship, every deeper path
    ["a.rest"] on the same entities is resolved against the
    concatenation, in the order of the entities, of the related
    entities the call assigned: the first hop no longer meets an
    unloaded attribute. *)
Theorem fetch_then_deeper_path (db : database) (st : state) (e : pyref)
    (es : list pyref) (a : string) (p : path) (rc : string) (vals : list colval) :
  no_dot a = true →
  parse db (st_heap st) (e :: es) (PStr a) false = Ok p →
  rel_key (path_property p) = a →
  fetcher_class p ≠ ManyToOneFetcher →
  path_session (st_heap st) p = Ok tt →
  remote_column_name db (st_heap st) (path_fetcher p) = Ok (Some rc) →
  local_values_list (st_heap st) (path_fetcher p) = Ok vals →
  (fetcher_class p ≠ ManyToManyFetcher →
   ∃ c, class_getattr db (path_model p) rc = Ok (ColumnProperty c)) →
  Forall (λ x, accepts db (st_heap st) a x = true) (e :: es) →
  (∀ l, PyObj l ∈ e :: es → has_column (st_heap st) a l = false) →
  ∃ st', batch_fetch db (e :: es) [PStr a] st = (Ok tt, st')
    ∧ ∀ rest pb,
        parse db (st_heap st') (e :: es) (PStr (a +:+ ("." +:+ rest))) pb
        = parse db (st_heap st')
            (flat_map (λ x, related_rows db (st_heap st) p rc
                              (child_key (st_heap st) (path_fetcher p) x))
               (e :: es))
            (PStr rest) pb.
Proof.
  intros Ha Hparse Hkey Hkind Hs Hrc Hvals Hcol Hacc Hnocol.
  assert (Hents : path_entities p = e :: es).
  { unfold parse in Hparse. rewrite (split_dot_no_dot _ Ha) in Hparse.
    by apply (resolve_entities db (st_heap st) _ a false). }
  destruct (coordinator_call_single db st (e :: es) (PStr a) p rc vals)
    as (st' & Hcall & _ & [Hsame _] & _ & Hin); try done.
  { by apply path_fetcher_fetchable. }
  { by rewrite Hkey, Hents. }
  exists st'. split; [by apply batch_fetch_single_ok|].
  intros rest pb. rewrite flat_map_concat_map.
  apply parse_first_hop; [done|].
  rewrite Hents, Hkey in Hin. clear Hents Hparse.
  apply Forall2_map_r. intros x Hx.
  destruct (accepts_is_obj _ _ _ _ (proj1 (Forall_forall _ _) Hacc x Hx)) as [l ->].
  destruct (Hin l Hx) as (k & Hk & Hrel).
  rewrite (child_key_ok _ _ _ _ Hk).
  apply getattr_loaded.
  - rewrite Hrel. by destruct (fetcher_class p).
  - unfold has_column. rewrite <- (same_rows_row_cols (st_heap st)) by done.
    by apply Hnocol.
Qed.

Lemma fetch_then_deeper_path_witness :
  ∃ st', batch_fetch Sample.db0 [PyObj Sample.u1; PyObj Sample.u2] [PStr "phones"]
           Sample.st0 = (Ok tt, st')
    ∧ parse Sample.db0 (st_heap st') [PyObj Sample.u1; PyObj Sample.u2]
        (PStr "phones.user") false
      = parse Sample.db0 (st_heap st') [PyObj Sample.p1; PyObj Sample.p2]
          (PStr "user") false.
Proof.
  destruct (fetch_then_deeper_path Sample.db0 Sample.st0 (PyObj Sample.u1)
              [PyObj Sample.u2] "phones" Sample.p_phones "user_id"
              [Some 1%Z; Some 2%Z])
    as (st' & Hcall & Hparse).
  - reflexivity.
  - reflexivity.
  - reflexivity.
  - discriminate.
  - reflexivity.
  - reflexivity.
  - reflexivity.
  - intros _. exists Sample.c_user_id. reflexivity.
  - repeat constructor.
  - intros l Hl. apply list_elem_of_In in Hl. simpl in Hl.
    destruct Hl as [[= <-]|[[= <-]|[]]]; reflexivity.
  - exists st'. split; [exact Hcall|]. exact (Hparse "user" false).
Defined.

(** ** Exceptions of the fetchers *)

Lemma find_fk_none t name fks :
  t ∉ fks → find_fk (Ok t) name fks = Ok None.
Proof.
  induction fks as [|t' fks IH]; [done|].
  rewrite not_elem_of_cons. intros [Hne Hnin]. simpl.
  destruct (String.eqb_spec t' t) as [->|_]; [done|]. by apply IH.
Qed.

Lemma find_remote_none t cols :
  Forall (λ c, t ∉ col_foreign_keys c) cols → find_remote (Ok t) cols = Ok None.
Proof.
  induction 1 as [|c cols Hc _ IH]; [done|]. cbn [find_remote].
  by rewrite (find_fk_none _ _ _ Hc).
Qed.

Lemma coordinator_call_fetch_error db entities q p err st :
  simple_spec (unwrap q) →
  parse db (st_heap st) entities (unwrap q) (wants_backrefs q) = Ok p →
  fetch db (path_fetcher p) st = (Raise err, st) →
  coordinator_call db entities q st = (Raise err, st).
Proof.
  intros Hq Hparse Hfetch. rewrite coordinator_call_unwrap.
  destruct (unwrap q); try done; munfold; cbv beta iota;
    rewrite Hparse; cbv beta iota; by rewrite Hfetch.
Qed.

(** X9: a many-to-many path none of whose remote-side columns has a
    foreign key to the table of the class of the first entity (the
    case of a parent class with an inherited relationship, which the
    source marks as to do): [remote_column_name] returns [None], and
    [batch_fetch] raises [TypeError] before any query, with the state
    unchanged. *)
Theorem many_to_many_needs_parent_key (db : database) (st : state) (e : pyref)
    (es : list pyref) (q : path_spec) (p : path) (t : string) :
  simple_spec (unwrap q) →
  parse db (st_heap st) (e :: es) (unwrap q) (wants_backrefs q) = Ok p →
  is_Some (rel_secondary (path_property p)) →
  path_session (st_heap st) p = Ok tt →
  parent_table db (st_heap st) p = Ok t →
  Forall (λ c, t ∉ col_foreign_keys c) (rel_remote_side (path_property p)) →
  remote_column_name db (st_heap st) (path_fetcher p) = Ok None
  ∧ batch_fetch db (e :: es) [q] st = (Raise TypeError, st).
Proof.
  intros Hq Hparse [secondary Hsec] Hs Ht Hfk.
  assert (Hrc : remote_column_name db (st_heap st) (path_fetcher p) = Ok None).
  { unfold remote_column_name, prop. cbn [f_kind f_path path_fetcher].
    unfold fetcher_class. rewrite Hsec, Ht. by apply find_remote_none. }
  split; [exact Hrc|].
  apply batch_fetch_single_error.
  apply (coordinator_call_fetch_error _ _ _ p); [done|done|].
  unfold fetch. munfold. cbv beta iota.
  assert (Hrel : related_entities db (st_heap st) (path_fetcher p) = Raise TypeError).
  { unfold related_entities. rewrite Hrc. unfold prop.
    cbn [f_kind f_path path_fetcher]. unfold fetcher_class.
    by rewrite Hsec, Hs. }
  by rewrite Hrel.
Qed.

Lemma many_to_many_needs_parent_key_witness :
  batch_fetch Inherited.db [PyObj Inherited.m1] [PStr "groups"]
    (mkState Inherited.h 0) = (Raise TypeError, mkState Inherited.h 0).
Proof.
  apply (many_to_many_needs_parent_key Inherited.db (mkState Inherited.h 0)
           (PyObj Inherited.m1) [] (PStr "groups")
           (mkPath [PyObj Inherited.m1] Sample.r_groups false) "manager").
  - exact I.
  - reflexivity.
  - by eexists.
  - reflexivity.
  - reflexivity.
  - repeat constructor; intros H; apply list_elem_of_In in H; simpl in H;
      destruct H as [[=]|[]].
Defined.

(** [populate_backrefs] on a query of entities: it fails at the first
    row, and with no row it runs its three loops in vain. *)
Lemma populate_backrefs_direct db f model c s :
  populate_backrefs db f (QFilter model c) s =
  match run_query db (st_heap s) (QFilter model c) with
  | [] => (Ok tt, mkState (st_heap s) (3 + st_queries s))
  | _ :: _ => (Raise TypeError, mkState (st_heap s) (1 + st_queries s))
  end.
Proof.
  unfold populate_backrefs, iterate. munfold. cbv beta iota. cbn [st_heap st_queries].
  simpl run_query.
  destruct (List.filter (λ l, sat (row_cols (st_heap s) l) c) (table db model))
    as [|l ls]; reflexivity.
Qed.

(** X10: [with_backrefs] on a one-to-many or many-to-one path.  The
    relationship is fetched and populated as without the marker; then
    [populate_backrefs] unpacks the first result row, which is an
    entity and no pair: if the query has any row the call raises
    [TypeError] after two queries, and if it has none the call returns
    after four.  Either way no other attribute than the relationship is
    written: the inverse stays as it was. *)
Theorem with_backrefs_direct_relationship (db : database) (st : state) (e : pyref)
    (es : list pyref) (spec : path_spec) (p : path) (rc : string)
    (vals : list colval) :
  simple_spec spec →
  parse db (st_heap st) (e :: es) spec true = Ok p →
  fetcher_class p ≠ ManyToManyFetcher →
  path_session (st_heap st) p = Ok tt →
  remote_column_name db (st_heap st) (path_fetcher p) = Ok (Some rc) →
  local_values_list (st_heap st) (path_fetcher p) = Ok vals →
  (∃ c, class_getattr db (path_model p) rc = Ok (ColumnProperty c)) →
  Forall (λ x, accepts db (st_heap st) (rel_key (path_property p)) x = true)
    (path_entities p) →
  ∃ st',
    batch_fetch db (e :: es) [with_backrefs spec] st
    = (match run_query db (st_heap st) (QFilter (path_model p) (In_ rc vals)) with
       | [] => Ok tt
       | _ :: _ => Raise TypeError
       end, st')
    ∧ st_queries st'
      = (match run_query db (st_heap st) (QFilter (path_model p) (In_ rc vals)) with
         | [] => 4
         | _ :: _ => 2
         end + st_queries st)%nat
    ∧ frame (Some (rel_key (path_property p))) st st'
    ∧ ∀ l, PyObj l ∈ path_entities p →
        ∃ k, local_values (st_heap st) (path_fetcher p) (PyObj l) = Ok k
             ∧ rel_at (st_heap st') l (rel_key (path_property p))
               = Some (group_of (fetcher_class p)
                         (related_rows db (st_heap st) p rc k)).
Proof.
  intros Hspec Hparse Hkind Hs Hrc Hvals Hcol Hacc.
  pose proof (parse_populate_backrefs _ _ _ _ _ _ Hparse) as Hpb.
  assert (Hf : fetchable db (st_heap st) (path_fetcher p) rc vals)
    by by apply path_fetcher_fetchable.
  set (h := st_heap st) in *. set (f := path_fetcher p) in *.
  set (f' := set_parent_dict f
               (accumulate (f_kind f) (parent_dict f)
                  (map (keyed h rc) (run_query db h (fetch_query f rc vals))))).
  set (st1 := mkState h (S (st_queries st))).
  assert (Hfetch : fetch db f st = (Ok f', st1)).
  { apply (fetch_spec _ _ _ rc vals); [done|]. intros _. apply values_are_lists_empty. }
  destruct (populate_entities_spec db f' (path_entities p) st1)
    as (sF & Hrun & HqF & HfrF & _ & Hin).
  { apply Forall_forall. intros x Hx. split.
    - by apply (proj1 (Forall_forall _ _) Hacc).
    - apply (mapR_Ok_elem _ _ _ x Hvals Hx). }
  assert (Hsame : same_rows h (st_heap sF)) by apply HfrF.
  assert (HfF : fetchable db (st_heap sF) f' rc vals)
    by by apply (same_rows_fetchable db h).
  assert (Hquery : fetch_query f' rc vals = QFilter (path_model p) (In_ rc vals)).
  { unfold fetch_query, prop. cbn [f_kind f_path f' f set_parent_dict path_fetcher].
    by destruct (fetcher_class p), (rel_secondary (path_property p)). }
  set (rows := run_query db h (QFilter (path_model p) (In_ rc vals))).
  assert (Hrows : run_query db (st_heap sF) (QFilter (path_model p) (In_ rc vals)) = rows).
  { symmetry. by apply same_rows_run_query. }
  assert (Hpop : populate db f' st1 =
            match rows with
            | [] => (Ok tt, mkState (st_heap sF) (3 + st_queries sF))
            | _ :: _ => (Raise TypeError, mkState (st_heap sF) (1 + st_queries sF))
            end).
  { unfold populate. rewrite (bindM_Ok _ _ _ _ _ Hrun).
    change (f_path f') with p. rewrite Hpb. munfold. cbv beta iota.
    rewrite (related_entities_spec _ _ _ rc vals HfF), Hquery.
    by rewrite populate_backrefs_direct, Hrows. }
  exists (mkState (st_heap sF)
            (match rows with [] => 3 | _ :: _ => 1 end + st_queries sF)).
  split; [|split; [|split]].
  - unfold batch_fetch. simpl forM. unfold coordinator_call.
    destruct spec; try done; munfold; cbv beta iota; fold h;
      rewrite Hparse; cbv beta iota; fold f; rewrite Hfetch, Hpop;
      by destruct rows.
  - cbn [st_queries]. rewrite HqF. simpl. by destruct rows.
  - destruct HfrF as [Hs1 Hr1]. split; [exact Hs1|]. intros l n Hn.
    cbn [st_heap]. by rewrite (Hr1 l n Hn).
  - intros l Hl. destruct (Hin l Hl) as (k & Hk & Hrel).
    exists k. split; [exact Hk|]. cbn [st_heap].
    change (rel_key (prop f')) with (rel_key (path_property p)) in Hrel.
    rewrite Hrel. f_equal.
    unfold dd_get, f'. cbn [f_kind parent_dict set_parent_dict f path_fetcher].
    rewrite accumulate_group.
    rewrite <- (with_key_related_rows db h p rc vals k); [done|].
    by apply (mapR_Ok_in _ _ _ _ _ Hvals Hl).
Qed.

Lemma with_backrefs_direct_relationship_witness :
  ∃ st', batch_fetch Sample.db0 [PyObj Sample.u1; PyObj Sample.u2]
           [with_backrefs (PStr "phones")] Sample.st0 = (Raise TypeError, st')
    ∧ st_queries st' = 2%nat
    ∧ rel_at (st_heap st') Sample.p1 "user" = None.
Proof.
  destruct (with_backrefs_direct_relationship Sample.db0 Sample.st0
              (PyObj Sample.u1) [PyObj Sample.u2] (PStr "phones")
              (mkPath [PyObj Sample.u1; PyObj Sample.u2] Sample.r_phones true)
              "user_id" [Some 1%Z; Some 2%Z])
    as (st' & Hcall & Hq & [_ Hfr] & _).
  - exact I.
  - reflexivity.
  - discriminate.
  - reflexivity.
  - reflexivity.
  - reflexivity.
  - exists Sample.c_user_id. reflexivity.
  - repeat constructor.
  - exists st'. split; [exact Hcall|]. split; [exact Hq|].
    rewrite Hfr; [reflexivity|discriminate].
Defined.

(** ** Composites of any size *)




(** ** Repeating a path, naming an attribute *)

Lemma heap_ext (h h' : heap) :
  same_rows h h' → (∀ l n, rel_at h l n = rel_at h' l n) → h = h'.
Proof.
  intros Hsame Hrel. apply map_eq. intros l.
  destruct (Hsame l) as [Hc Hcols]. specialize (Hrel l). unfold rel_at in Hrel.
  destruct (h !! l) as [[c cs rs]|], (h' !! l) as [[c' cs' rs']|];
    simpl in *; try done.
  injection Hc as ->. injection Hcols as ->. do 2 f_equal.
  apply map_eq. exact Hrel.
Qed.

Lemma same_rows_related_rows db h h' p rc k :
  same_rows h h' → related_rows db h p rc k = related_rows db h' p rc k.
Proof.
  intros Hsame. unfold related_rows. destruct k as [z|]; [|done].
  destruct (rel_secondary (path_property p)).
  - unfold linked_rows. f_equal. apply flat_map_ext. intros a.
    destruct (_ : bool); [|done]. f_equal. apply filter_ext. intros l.
    by rewrite (same_rows_row_cols h h').
  - f_equal. apply filter_ext. intros l. by rewrite (same_rows_row_cols h h').
Qed.

Lemma same_rows_parse_one_hop db h h' entities spec pb :
  one_hop spec → same_rows h h' →
  parse db h entities spec pb = parse db h' entities spec pb.
Proof.
  intros Hspec Hsame. destruct spec as [a|prop| | |]; try done. simpl in Hspec.
  unfold parse. rewrite (split_dot_no_dot _ Hspec). simpl.
  destruct (index0 entities); [|done]. rewrite !bindR_Ok.
  by rewrite (same_rows_class_of h h').
Qed.

Lemma one_hop_simple spec : one_hop spec → simple_spec spec.
Proof. by destruct spec. Qed.

(** X12: no deduplication across specifiers, and no harm in it.  A
    one-hop path without backref population given twice runs its query
    twice, and the second run leaves the heap exactly as the first run
    left it. *)
Theorem batch_fetch_twice (db : database) (st : state) (e : pyref)
    (es : list pyref) (spec : path_spec) (p : path) (rc : string)
    (vals : list colval) :
  one_hop spec →
  parse db (st_heap st) (e :: es) spec false = Ok p →
  path_session (st_heap st) p = Ok tt →
  remote_column_name db (st_heap st) (path_fetcher p) = Ok (Some rc) →
  local_values_list (st_heap st) (path_fetcher p) = Ok vals →
  (fetcher_class p ≠ ManyToManyFetcher →
   ∃ c, class_getattr db (path_model p) rc = Ok (ColumnProperty c)) →
  Forall (λ x, accepts db (st_heap st) (rel_key (path_property p)) x = true)
    (path_entities p) →
  ∃ st1, batch_fetch db (e :: es) [spec] st = (Ok tt, st1)
    ∧ st_queries st1 = S (st_queries st)
    ∧ batch_fetch db (e :: es) [spec; spec] st
      = (Ok tt, mkState (st_heap st1) (S (st_queries st1))).
Proof.
  intros Hspec Hparse Hs Hrc Hvals Hcol Hacc.
  assert (Hf : fetchable db (st_heap st) (path_fetcher p) rc vals)
    by by apply path_fetcher_fetchable.
  destruct (coordinator_call_single db st (e :: es) spec p rc vals)
    as (st1 & Hcall1 & Hq1 & [Hsame1 Hfr1] & Hout1 & Hin1);
    [by apply one_hop_simple|done|done|done|].
  destruct (coordinator_call_single db st1 (e :: es) spec p rc vals)
    as (st2 & Hcall2 & Hq2 & [Hsame2 Hfr2] & Hout2 & Hin2).
  { by apply one_hop_simple. }
  { by rewrite <- (same_rows_parse_one_hop db (st_heap st)). }
  { by apply (same_rows_fetchable db (st_heap st)). }
  { eapply Forall_impl; [exact Hacc|]. intros x Hx.
    by rewrite <- (same_rows_accepts db (st_heap st)). }
  exists st1. split; [by apply batch_fetch_single_ok|]. split; [exact Hq1|].
  assert (Hheap : st_heap st2 = st_heap st1).
  { symmetry. apply heap_ext; [exact Hsame2|]. intros l n.
    destruct (decide (n = rel_key (path_property p))) as [->|Hn].
    - destruct (decide (PyObj l ∈ path_entities p)) as [Hl|Hl].
      + destruct (Hin1 l Hl) as (k & Hk & ->).
        destruct (Hin2 l Hl) as (k' & Hk' & ->).
        rewrite <- (same_rows_local_values (st_heap st)) in Hk' by done.
        assert (k' = k) as -> by congruence.
        by rewrite (same_rows_related_rows db (st_heap st) (st_heap st1)).
      + by rewrite (Hout2 l Hl).
    - rewrite Hfr2; [done|congruence]. }
  unfold batch_fetch. simpl forM.
  rewrite (bindM_Ok _ _ _ _ _ Hcall1), (bindM_Ok _ _ _ _ _ Hcall2).
  unfold mret, M_ret. f_equal. destruct st2 as [h2 q2]. simpl in *. by subst.
Qed.

Lemma batch_fetch_twice_witness :
  ∃ st1, batch_fetch Sample.db0 [PyObj Sample.u1; PyObj Sample.u2]
           [PStr "groups"] Sample.st0 = (Ok tt, st1)
    ∧ batch_fetch Sample.db0 [PyObj Sample.u1; PyObj Sample.u2]
        [PStr "groups"; PStr "groups"] Sample.st0
      = (Ok tt, mkState (st_heap st1) 2).
Proof.
  destruct (batch_fetch_twice Sample.db0 Sample.st0 (PyObj Sample.u1)
              [PyObj Sample.u2] (PStr "groups") Sample.p_groups "user_id"
              [Some 1%Z; Some 2%Z])
    as (st1 & Hone & Hq & Htwo).
  - reflexivity.
  - reflexivity.
  - reflexivity.
  - reflexivity.
  - reflexivity.
  - intros H. by destruct H.
  - repeat constructor.
  - exists st1. split; [exact Hone|]. rewrite Htwo, Hq. reflexivity.
Defined.

(** X13: a name and the handle of the attribute it names.  When the
    class of the first entity maps the dot-free name [a] to the
    property [prop], the call with the string [a] and the call with the
    attribute handle of [prop] are the same computation, with or
    without [with_backrefs]; the handle alone never looks at the class
    of the entities. *)
Theorem batch_fetch_name_or_handle (db : database) (st : state) (e : pyref)
    (es : list pyref) (a cls : string) (prop : property) :
  no_dot a = true →
  class_of (st_heap st) e = Ok cls →
  class_getattr db cls a = Ok prop →
  batch_fetch db (e :: es) [PStr a] st = batch_fetch db (e :: es) [PAttr prop] st
  ∧ batch_fetch db (e :: es) [with_backrefs (PStr a)] st
    = batch_fetch db (e :: es) [with_backrefs (PAttr prop)] st.
Proof.
  intros Ha Hcls Hattr.
  assert (Hparse : ∀ pb, parse db (st_heap st) (e :: es) (PStr a) pb
                         = parse db (st_heap st) (e :: es) (PAttr prop) pb).
  { intros pb. unfold parse. rewrite (split_dot_no_dot _ Ha). simpl.
    by rewrite Hcls, bindR_Ok, Hattr. }
  split; unfold batch_fetch; simpl forM; unfold coordinator_call;
    munfold; cbv beta iota; by rewrite Hparse.
Qed.

Lemma batch_fetch_name_or_handle_witness :
  batch_fetch Sample.db0 [PyObj Sample.u1; PyObj Sample.u2] [PStr "phones"] Sample.st0
  = batch_fetch Sample.db0 [PyObj Sample.u1; PyObj Sample.u2]
      [PAttr (RelationshipProperty Sample.r_phones)] Sample.st0.
Proof.
  apply (batch_fetch_name_or_handle Sample.db0 Sample.st0 (PyObj Sample.u1)
           [PyObj Sample.u2] "phones" "User" (RelationshipProperty Sample.r_phones)).
  - reflexivity.
  - reflexivity.
  - reflexivity.
Defined.

(** ** Many-to-many fetches on the sample databases *)

(** Two association rows link the first user to the first group: the
    join yields the pair once, and [groups] holds the group once. *)
Example sample_groups_once :
  run_query Sample.db0 Sample.h0
    (QJoin "Group" "user_group" ("id", "group_id") "user_id" [Some 1%Z; Some 2%Z])
  = [RowPair (PyObj Sample.g1) (Some 1%Z); RowPair (PyObj Sample.g2) (Some 2%Z)]
  ∧ ∃ st', batch_fetch Sample.db0 [PyObj Sample.u1; PyObj Sample.u2]
             [PStr "groups"] Sample.st0 = (Ok tt, st')
      ∧ rel_at (st_heap st') Sample.u1 "groups" = Some (VList [PyObj Sample.g1])
      ∧ rel_at (st_heap st') Sample.u2 "groups" = Some (VList [PyObj Sample.g2]).
Proof.
  split; [vm_compute; reflexivity|].
  eexists. split; [vm_compute; reflexivity|]. split; vm_compute; reflexivity.
Qed.

(** The groups of a user come in the order of the association rows. *)
Example shuffled_groups_order :
  ∃ st', batch_fetch Shuffled.db [PyObj Sample.u1; PyObj Sample.u2]
           [PStr "groups"] Sample.st0 = (Ok tt, st')
    ∧ rel_at (st_heap st') Sample.u1 "groups"
      = Some (VList [PyObj Sample.g2; PyObj Sample.g1])
    ∧ rel_at (st_heap st') Sample.u2 "groups" = Some (VList [PyObj Sample.g1]).
Proof.
  eexists. split; [vm_compute; reflexivity|]. split; vm_compute; reflexivity.
Qed.

(** With backref population every group receives each of its users
    once. *)
Example sample_groups_backrefs :
  ∃ st', batch_fetch Sample.db0 [PyObj Sample.u1; PyObj Sample.u2]
           [with_backrefs (PStr "groups")] Sample.st0 = (Ok tt, st')
    ∧ st_queries st' = 4%nat
    ∧ rel_at (st_heap st') Sample.g1 "users" = Some (VList [PyObj Sample.u1])
    ∧ rel_at (st_heap st') Sample.g2 "users" = Some (VList [PyObj Sample.u2]).
Proof.
  eexists. split; [vm_compute; reflexivity|].
  split; [reflexivity|]. split; vm_compute; reflexivity.
Qed.
